(** * mcp-git.py: file collector and publish workflow

    A shallow embedding of [mCall_CollectFiles] and [rCall_PushAndPR]
    (src/mcp-git.py), together with the parts of the Python library they
    rest on: strict UTF-8 decoding, standard base64, [PurePosixPath]
    parsing and joining, [Path.rglob], [Path.is_file] and [print].

    Python values are modelled as follows.
    - [bytes] is [list byte] (Stdlib's 256-constructor [Byte.byte]).
    - [str] is a list of Unicode code points, each an [N].
    - a raised exception is a value of [raised]; a call that may raise
      returns a [result]. *)

From Stdlib Require Import String Ascii List NArith Lia Bool.
From Stdlib Require Import Strings.Byte PeanoNat.
Import ListNotations.

Local Open Scope N_scope.

(** ** Strings and bytes *)

(** A Python [str]: a sequence of Unicode code points. *)
Definition str := list N.

(** The code points of an ASCII literal. *)
Definition lit (s : string) : str :=
  List.map N_of_ascii (list_ascii_of_string s).

Definition str_eqb (a b : str) : bool :=
  if list_eq_dec N.eq_dec a b then true else false.

(** [s.startswith(p)] *)
Fixpoint startswith (p s : str) : bool :=
  match p, s with
  | [], _ => true
  | _ :: _, [] => false
  | a :: p', b :: s' => (a =? b) && startswith p' s'
  end.

Definition ord (b : byte) : N := Byte.to_N b.

(** ** Exceptions and results *)

(** What a Python call may raise.  [Error] stands for an instance of
    [Exception] (what [except Exception] catches), named by its class and
    message; [Signal] stands for an instance of [BaseException] outside
    [Exception] ([KeyboardInterrupt], [asyncio.CancelledError], ...). *)
Inductive raised : Type :=
| Error (cls : string) (msg : str)
| Signal (cls : string).

Inductive result (A : Type) : Type :=
| Ok (a : A)
| Raise (e : raised).
Arguments Ok {A} a.
Arguments Raise {A} e.

(** ** [bytes.decode("utf-8")], strict *)

Definition is_cont (b : N) : bool := (128 <=? b) && (b <=? 191).

(** Low six bits of a continuation byte. *)
Definition cont_bits (b : N) : N := b - 128.

Definition is_surrogate (cp : N) : bool := (55296 <=? cp) && (cp <=? 57343).

(** Decodes one byte sequence after the other; [None] is
    [UnicodeDecodeError].  Overlong forms, surrogates and code points above
    U+10FFFF are rejected, as CPython does. *)
Fixpoint utf8_decode (raw : list byte) : option str :=
  match raw with
  | [] => Some []
  | b0 :: t0 =>
      let c0 := ord b0 in
      if c0 <? 128 then option_map (cons c0) (utf8_decode t0)
      else if c0 <? 192 then None
      else if c0 <? 224 then
        match t0 with
        | b1 :: t1 =>
            let c1 := ord b1 in
            let cp := (c0 - 192) * 64 + cont_bits c1 in
            if is_cont c1 && (128 <=? cp)
            then option_map (cons cp) (utf8_decode t1)
            else None
        | _ => None
        end
      else if c0 <? 240 then
        match t0 with
        | b1 :: b2 :: t2 =>
            let c1 := ord b1 in
            let c2 := ord b2 in
            let cp := (c0 - 224) * 4096 + cont_bits c1 * 64 + cont_bits c2 in
            if is_cont c1 && is_cont c2 && (2048 <=? cp)
               && negb (is_surrogate cp)
            then option_map (cons cp) (utf8_decode t2)
            else None
        | _ => None
        end
      else if c0 <? 248 then
        match t0 with
        | b1 :: b2 :: b3 :: t3 =>
            let c1 := ord b1 in
            let c2 := ord b2 in
            let c3 := ord b3 in
            let cp := (c0 - 240) * 262144 + cont_bits c1 * 4096
                      + cont_bits c2 * 64 + cont_bits c3 in
            if is_cont c1 && is_cont c2 && is_cont c3
               && (65536 <=? cp) && (cp <=? 1114111)
            then option_map (cons cp) (utf8_decode t3)
            else None
        | _ => None
        end
      else None
  end.

(** ** [base64.b64encode] and [base64.b64decode] *)

Definition b64_alphabet : list byte :=
  list_byte_of_string
    "ABCDEFGHIJKLMNOPQRSTUVWXYZabcdefghijklmnopqrstuvwxyz0123456789+/".

Definition b64_pad : byte := "="%byte.

(** The alphabet character of a six-bit value. *)
Definition b64_char (i : N) : byte :=
  nth (N.to_nat (i mod 64)) b64_alphabet b64_pad.

(** Three input bytes become four characters; a final group of one or two
    bytes is zero-filled and padded with [=]. *)
Fixpoint b64encode (raw : list byte) : list byte :=
  match raw with
  | [] => []
  | [a] =>
      let n := ord a * 65536 in
      [b64_char (n / 262144); b64_char (n / 4096); b64_pad; b64_pad]
  | [a; b] =>
      let n := ord a * 65536 + ord b * 256 in
      [b64_char (n / 262144); b64_char (n / 4096); b64_char (n / 64);
       b64_pad]
  | a :: b :: c :: rest =>
      let n := ord a * 65536 + ord b * 256 + ord c in
      b64_char (n / 262144) :: b64_char (n / 4096) :: b64_char (n / 64)
        :: b64_char n :: b64encode rest
  end.

(** The six-bit value of an alphabet character. *)
Definition b64_value (c : N) : option N :=
  if (65 <=? c) && (c <=? 90) then Some (c - 65)
  else if (97 <=? c) && (c <=? 122) then Some (c - 71)
  else if (48 <=? c) && (c <=? 57) then Some (c + 4)
  else if c =? 43 then Some 62
  else if c =? 47 then Some 63
  else None.

Definition byte_of (n : N) : option byte := Byte.of_N n.

Definition bytes_of (ns : list N) : option (list byte) :=
  List.fold_right
    (fun n acc =>
       match byte_of n, acc with
       | Some b, Some bs => Some (b :: bs)
       | _, _ => None
       end)
    (Some []) ns.

(** Decoding of a base64 text in the standard alphabet with mandatory
    padding: groups of four characters, [=] (code 61) only at the end of
    the last group.  [None] is [binascii.Error]. *)
Fixpoint b64decode (s : str) : option (list byte) :=
  match s with
  | [] => Some []
  | c0 :: c1 :: c2 :: c3 :: rest =>
      if c3 =? 61 then
        match rest with
        | [] =>
            if c2 =? 61 then
              match b64_value c0, b64_value c1 with
              | Some v0, Some v1 =>
                  let n := v0 * 262144 + v1 * 4096 in
                  bytes_of [n / 65536]
              | _, _ => None
              end
            else
              match b64_value c0, b64_value c1, b64_value c2 with
              | Some v0, Some v1, Some v2 =>
                  let n := v0 * 262144 + v1 * 4096 + v2 * 64 in
                  bytes_of [n / 65536; (n / 256) mod 256]
              | _, _, _ => None
              end
        | _ :: _ => None
        end
      else
        match b64_value c0, b64_value c1, b64_value c2, b64_value c3 with
        | Some v0, Some v1, Some v2, Some v3 =>
            let n := v0 * 262144 + v1 * 4096 + v2 * 64 + v3 in
            match bytes_of [n / 65536; (n / 256) mod 256; n mod 256],
                  b64decode rest with
            | Some bs, Some more => Some (bs ++ more)
            | _, _ => None
            end
        | _, _, _, _ => None
        end
  | _ => None
  end.

(** ** [PurePosixPath] *)

Definition slash : N := 47.
Definition dot : str := [46].

(** A parsed POSIX path: [root] is one of the empty string, [/] and [//];
    [parts] are the components after the root. *)
Record PurePosixPath : Type := mkPath { root : str; parts : list str }.

(** [s.split("/")] *)
Fixpoint split_slash (s : str) : list str :=
  match s with
  | [] => [[]]
  | c :: s' =>
      if c =? slash then [] :: split_slash s'
      else
        match split_slash s' with
        | h :: t => (c :: h) :: t
        | [] => [[c]]
        end
  end.

(** [s.lstrip("/")] *)
Fixpoint lstrip_slash (s : str) : str :=
  match s with
  | c :: s' => if c =? slash then lstrip_slash s' else s
  | [] => []
  end.

(** The POSIX flavour's [splitroot]: exactly two leading slashes are kept
    as the root [//]; one, or three and more, are the root [/]. *)
Definition splitroot (s : str) : str * str :=
  match s with
  | c :: _ =>
      if c =? slash then
        let stripped := lstrip_slash s in
        if Nat.eqb (List.length s - List.length stripped) 2
        then ([slash; slash], stripped)
        else ([slash], stripped)
      else ([], s)
  | [] => ([], s)
  end.

Definition keep_part (x : str) : bool :=
  negb (str_eqb x []) && negb (str_eqb x dot).

(** [PurePosixPath(s)]: empty and [.] components are dropped. *)
Definition parse_path (s : str) : PurePosixPath :=
  let (rt, rel) := splitroot s in
  mkPath rt (filter keep_part (split_slash rel)).

(** [a / b]: an anchored [b] replaces [a]; otherwise the components of [b]
    follow those of [a]. *)
Definition joinpath (a b : PurePosixPath) : PurePosixPath :=
  match root b with
  | [] => mkPath (root a) (parts a ++ parts b)
  | _ :: _ => b
  end.

(** ["/".join(xs)] *)
Fixpoint join_slash (xs : list str) : str :=
  match xs with
  | [] => []
  | [x] => x
  | x :: rest => x ++ slash :: join_slash rest
  end.

(** [str(p)]: the root, then the components joined by [/]; the empty path
    prints as [.]. *)
Definition path_str (p : PurePosixPath) : str :=
  match root p ++ join_slash (parts p) with
  | [] => dot
  | s => s
  end.

(** ** The local file system *)

(** What a path may name.  A regular file carries the outcome of
    [read_bytes]; [Special] is an entry that is neither a regular file nor
    a directory (socket, FIFO, dangling link); a directory lists its
    entries in [scandir] order.  [Unstatable e] is an entry on which
    [stat] raises [e], an [OSError] that [pathlib] does not take for
    absence (EACCES below a directory that can be listed but not
    searched, ENAMETOOLONG): [is_file()] and [is_dir()] raise it.
    [Broken e] is a directory that [stat] sees and whose listing raises
    [e], an [OSError] other than [PermissionError].  A directory whose
    listing raises [PermissionError] is walked as an empty directory,
    since the walk catches that error. *)
#[local] Set Warnings "-register-all".
Inductive node : Type :=
| File (data : result (list byte))
| Special
| Dir (entries : list (str * node))
| Unstatable (e : raised)
| Broken (e : raised).

(** [p.is_file()] *)
Definition is_file (n : node) : result bool :=
  match n with
  | File _ => Ok true
  | Special | Dir _ | Broken _ => Ok false
  | Unstatable e => Raise e
  end.

(** [p.is_dir()] *)
Definition is_dir (n : node) : result bool :=
  match n with
  | Dir _ | Broken _ => Ok true
  | File _ | Special => Ok false
  | Unstatable e => Raise e
  end.

(** [p.read_bytes()] *)
Definition read_bytes (n : node) : result (list byte) :=
  match n with
  | File data => data
  | Special => Raise (Error "OSError" [])
  | Dir _ | Broken _ => Raise (Error "IsADirectoryError" [])
  | Unstatable e => Raise e
  end.

(** What the walk hands to the loop at one step: an entry, given by its
    components relative to the root, or the exception the walk raises
    there. *)
Definition walked : Type := result (list str * node).

Definition below (nm : str) (it : walked) : walked :=
  match it with
  | Ok (rel, m) => Ok (nm :: rel, m)
  | Raise e => Raise e
  end.

(** [root.rglob("*")] on a directory: every entry below it.  Each
    directory contributes all of its entries, then the walk descends into
    its sub-directories in the same order; it raises where a listing
    does. *)
Fixpoint rglob_dir (n : node) : list walked :=
  match n with
  | Dir entries =>
      List.map (fun e => Ok ([fst e], snd e)) entries
      ++ flat_map
           (fun e => List.map (below (fst e)) (rglob_dir (snd e)))
           entries
  | Broken e => [Raise e]
  | _ => []
  end.

(** [root.rglob("*")]: the walk starts with [is_dir()] on the root.  It
    yields nothing when the root is missing ([None]) or is not a
    directory, and raises when the test does. *)
Definition rglob (root : option node) : list walked :=
  match root with
  | Some n =>
      match is_dir n with
      | Ok true => rglob_dir n
      | Ok false => []
      | Raise e => [Raise e]
      end
  | None => []
  end.

(** ** File records *)

(** One element of the [files] argument of [push_files]: the dict
    [{"path": ..., "content": ...}] with or without ["encoding"]. *)
Record FileRecord : Type := mkRecord {
  path : str;
  content : str;
  encoding : option str
}.

(** ** mCall_CollectFiles *)

Section Collector.

(** [mimetypes.guess_type(name)[0]]: the MIME type guessed from a file
    name, [None] when there is no guess. *)
Variable guess_type : str -> option str.

(** [p.name]: the last component. *)
Definition name (rel : list str) : str := last rel [].

(** [str(PurePosixPath(remote_prefix) / p.relative_to(root))]; the
    relative path is the component list the walk produced. *)
Definition remote_path (remote_prefix : str) (rel : list str) : str :=
  path_str (joinpath (parse_path remote_prefix) (mkPath [] rel)).

(** [mime and mime.startswith("text/")] *)
Definition is_text_mime (mime : option str) : bool :=
  match mime with
  | Some m => negb (str_eqb m []) && startswith (lit "text/") m
  | None => false
  end.

(** The body of the loop for an entry that is a regular file. *)
Definition collect_file (remote_prefix : str) (files : list FileRecord)
    (rel : list str) (n : node) : result (list FileRecord) :=
  let rpath := remote_path remote_prefix rel in
  match read_bytes n with
  | Raise e => Raise e
  | Ok raw =>
      let mime := guess_type (name rel) in
      let text := if is_text_mime mime then utf8_decode raw else None in
      match text with
      | Some s => Ok (files ++ [mkRecord rpath s None])
      | None =>
          match utf8_decode (b64encode raw) with
          | Some c =>
              Ok (files ++ [mkRecord rpath c (Some (lit "base64"))])
          | None => Raise (Error "UnicodeDecodeError" [])
          end
      end
  end.

(** One iteration of the loop over [root.rglob("*")]. *)
Definition collect_step (remote_prefix : str) (files : list FileRecord)
    (it : walked) : result (list FileRecord) :=
  match it with
  | Raise e => Raise e
  | Ok (rel, n) =>
      match is_file n with
      | Raise e => Raise e
      | Ok false => Ok files
      | Ok true => collect_file remote_prefix files rel n
      end
  end.

Fixpoint collect_loop (remote_prefix : str) (files : list FileRecord)
    (todo : list walked) : result (list FileRecord) :=
  match todo with
  | [] => Ok files
  | p :: rest =>
      match collect_step remote_prefix files p with
      | Ok files' => collect_loop remote_prefix files' rest
      | Raise e => Raise e
      end
  end.

Definition mCall_CollectFiles (root : option node) (remote_prefix : str)
    : result (list FileRecord) :=
  collect_loop remote_prefix [] (rglob root).

End Collector.

(** ** The remote service *)

(** An argument value of a tool call. *)
Inductive value : Type :=
| VStr (s : str)
| VFiles (files : list FileRecord).

(** The dict handed to [ainvoke], keys in source order. *)
Definition args := list (str * value).

Fixpoint lookup (key : str) (a : args) : option value :=
  match a with
  | [] => None
  | (k, v) :: rest => if str_eqb k key then Some v else lookup key rest
  end.

(** What the workflow does to the outside, in order.  [Connect] is the
    entry of the [async with] block with the token handed to the
    subprocess; [Invoke] is one awaited [ainvoke]; [Print] is one call of
    [print]; the three carry what came back ([None]: normal return).
    [Release] is the exit of the block. *)
Inductive event : Type :=
| Connect (token : str) (outcome : option raised)
| Invoke (tool : str) (a : args) (outcome : option raised)
| Print (msg : str) (outcome : option raised)
| Release.

(** A tool of the catalog.  Its answer may depend on everything that
    happened before the call. *)
Record Tool : Type := mkTool {
  tool_name : str;
  respond : list event -> args -> option raised
}.

(** The service behind [MultiServerMCPClient]: whether the session comes
    up for a given token, and the catalog [client.get_tools()]. *)
Record Remote : Type := mkRemote {
  aenter : str -> option raised;
  get_tools : list Tool
}.

(** [{t.name: t for t in tools}[key]]: the last tool of that name;
    [None] is [KeyError]. *)
Definition getitem (tools : list Tool) (key : str) : option Tool :=
  find (fun t => str_eqb (tool_name t) key) (rev tools).

(** ** A monad for the workflow: a log of events and a result *)

Definition M (A : Type) : Type := list event -> list event * result A.

Definition ret {A} (a : A) : M A := fun tr => (tr, Ok a).

Definition bind {A B} (m : M A) (k : A -> M B) : M B :=
  fun tr =>
    match m tr with
    | (tr', Ok a) => k a tr'
    | (tr', Raise e) => (tr', Raise e)
    end.

Notation "x <- m ;; k" := (bind m (fun x => k))
  (at level 61, m at next level, right associativity).
Notation "m ;; k" := (bind m (fun _ => k))
  (at level 61, right associativity).

Definition raise {A} (e : raised) : M A := fun tr => (tr, Raise e).

(** A synchronous call that may raise. *)
Definition lift {A} (r : result A) : M A := fun tr => (tr, r).

(** [print(msg)] on a console that answers [stdout]: the call raises
    when the console cannot take the text ([UnicodeEncodeError] for a
    stream that does not encode it or for a lone surrogate,
    [BrokenPipeError]). *)
Definition print (stdout : list event -> str -> option raised)
    (msg : str) : M unit :=
  fun tr =>
    let o := stdout tr msg in
    (tr ++ [Print msg o],
     match o with None => Ok tt | Some e => Raise e end).

(** [tool_map[key]] *)
Definition tool_lookup (tools : list Tool) (key : str) : M Tool :=
  match getitem tools key with
  | Some t => ret t
  | None => raise (Error "KeyError" key)
  end.

(** [await t.ainvoke(a)] *)
Definition ainvoke (t : Tool) (a : args) : M unit :=
  fun tr =>
    let o := respond t tr a in
    (tr ++ [Invoke (tool_name t) a o],
     match o with None => Ok tt | Some e => Raise e end).

(** [try: body except Exception: handler] *)
Definition try_except {A} (body handler : M A) : M A :=
  fun tr =>
    match body tr with
    | (tr', Raise (Error _ _)) => handler tr'
    | r => r
    end.

(** [async with MultiServerMCPClient(..token..) as client: body].  When
    the entry raises there is no session and nothing to release; once it
    is up, the exit runs whatever the body did. *)
Definition async_with {A} (r : Remote) (token : str)
    (body : list Tool -> M A) : M A :=
  fun tr =>
    let o := aenter r token in
    match o with
    | Some e => (tr ++ [Connect token o], Raise e)
    | None =>
        let (tr', res) := body (get_tools r) (tr ++ [Connect token o]) in
        (tr' ++ [Release], res)
    end.

(** ** rCall_PushAndPR *)

Definition owner_const : str := lit "SGCS-Release-Git-Project".
Definition repo_const : str := lit "release-collect-game".
Definition main_const : str := lit "main".

Definition create_branch_args (branch_name : str) : args :=
  [(lit "owner", VStr owner_const);
   (lit "repo", VStr repo_const);
   (lit "branch", VStr branch_name);
   (lit "from_branch", VStr main_const)].

Definition push_files_args (branch_name : str) (files : list FileRecord)
    (pr_title : str) : args :=
  [(lit "owner", VStr owner_const);
   (lit "repo", VStr repo_const);
   (lit "branch", VStr branch_name);
   (lit "files", VFiles files);
   (lit "message", VStr pr_title)].

Definition create_pull_request_args (pr_title pr_body branch_name : str)
    : args :=
  [(lit "owner", VStr owner_const);
   (lit "repo", VStr repo_const);
   (lit "title", VStr pr_title);
   (lit "body", VStr pr_body);
   (lit "head", VStr branch_name);
   (lit "base", VStr main_const)].

(** The three console messages, as code points: the check mark and
    "branch '..' created"; the information sign and "'..' branch already
    exists, continuing"; the party popper and "PR created". *)
Definition msg_branch_created (branch_name : str) : str :=
  [9989; 32; 48652; 47004; 52824; 32; 39] ++ branch_name
  ++ [39; 32; 49373; 49457].

Definition msg_branch_continue (branch_name : str) : str :=
  [8505; 65039; 32; 32; 39] ++ branch_name
  ++ [39; 32; 48652; 47004; 52824; 32; 51060; 48120; 32; 51316; 51116; 32;
      8212; 32; 44228; 49549; 32; 51652; 54665].

Definition msg_pr_done : str :=
  [127881; 32; 32; 80; 82; 32; 49373; 49457; 32; 50756; 47308; 33].

(** The machine the script runs on: the local file system seen through
    [Path(dir_name)], the MIME table, the remote service and the
    console.  [local_fs] gives [None] for a path on which [is_dir()] is
    false because nothing is there, and [Some (Unstatable e)] for a path
    on which [stat] raises [e].  The console may answer by what was
    logged before. *)
Record World : Type := mkWorld {
  local_fs : str -> option node;
  mime_db : str -> option str;
  service : Remote;
  stdout : list event -> str -> option raised
}.

Section Workflow.

Variable w : World.

Definition rCall_PushAndPR_body
    (my_dir_name dir_name branch_name pr_title pr_body git_token : str)
    : M unit :=
  files <- lift (mCall_CollectFiles (mime_db w) (local_fs w dir_name)
                   my_dir_name) ;;
  async_with (service w) git_token (fun tools =>
    create_branch <- tool_lookup tools (lit "create_branch") ;;
    push_files_tool <- tool_lookup tools (lit "push_files") ;;
    create_pull_request <- tool_lookup tools (lit "create_pull_request") ;;
    try_except
      (ainvoke create_branch (create_branch_args branch_name) ;;
       print (stdout w) (msg_branch_created branch_name))
      (print (stdout w) (msg_branch_continue branch_name)) ;;
    ainvoke push_files_tool
      (push_files_args branch_name files pr_title) ;;
    ainvoke create_pull_request
      (create_pull_request_args pr_title pr_body branch_name) ;;
    print (stdout w) msg_pr_done).

(** One call of the workflow from an empty log. *)
Definition rCall_PushAndPR
    (my_dir_name dir_name branch_name pr_title pr_body git_token : str)
    : list event * result unit :=
  rCall_PushAndPR_body my_dir_name dir_name branch_name pr_title pr_body
    git_token [].

End Workflow.

(** ** Vocabulary of the statements *)

(** A path component: not empty, not [.], without [/]. *)
Definition is_component (x : str) : bool :=
  keep_part x && negb (existsb (N.eqb slash) x).

(** A name a directory entry can have. *)
Definition valid_name (x : str) : bool :=
  is_component x && negb (str_eqb x [46; 46]).

(** Every entry below [n] has a valid name. *)
Fixpoint names_ok (n : node) : bool :=
  match n with
  | Dir entries =>
      forallb (fun e => valid_name (fst e) && names_ok (snd e)) entries
  | _ => true
  end.

Definition root_names_ok (root : option node) : bool :=
  match root with Some n => names_ok n | None => true end.

(** An entry on which neither [is_file()] nor [read_bytes()] raises. *)
Definition readable (n : node) : bool :=
  match n with
  | File (Raise _) | Unstatable _ => false
  | _ => true
  end.

(** A step of the walk at which nothing raises. *)
Definition clean (it : walked) : bool :=
  match it with
  | Ok (_, n) => readable n
  | Raise _ => false
  end.

(** The exception of a step of the walk, if it has one: that of the
    walk, of [is_file()] or of [read_bytes()]. *)
Definition step_error (it : walked) : option raised :=
  match it with
  | Raise e => Some e
  | Ok (_, File (Raise e)) => Some e
  | Ok (_, Unstatable e) => Some e
  | Ok _ => None
  end.

(** Nothing raises below the root: the walk does not, and no entry does
    on [is_file()] or [read_bytes()]. *)
Definition all_readable (root : option node) : bool :=
  forallb clean (rglob root).

(** The files of a step of the walk: the entry, when it is a regular
    file that can be read. *)
Definition select (it : walked) : list (list str * list byte) :=
  match it with
  | Ok (rel, File (Ok raw)) => [(rel, raw)]
  | _ => []
  end.

(** The regular files below the root in walk order, each with its
    components relative to the root and its bytes. *)
Definition regular_files (root : option node)
    : list (list str * list byte) :=
  flat_map select (rglob root).

(** The relative paths of the entries of a walk. *)
Definition walked_paths (l : list walked) : list (list str) :=
  flat_map (fun it => match it with
                      | Ok (rel, _) => [rel]
                      | Raise _ => []
                      end) l.

(** The entries of a walk that [is_file()] takes for regular files. *)
Definition walked_files (l : list walked) : list (list str) :=
  flat_map (fun it => match it with
                      | Ok (rel, File _) => [rel]
                      | _ => []
                      end) l.

(** The record the loop appends for a regular file with bytes [raw]. *)
Definition record_for (guess_type : str -> option str) (remote_prefix : str)
    (f : list str * list byte) : FileRecord :=
  let rpath := remote_path remote_prefix (fst f) in
  match (if is_text_mime (guess_type (name (fst f)))
         then utf8_decode (snd f) else None) with
  | Some s => mkRecord rpath s None
  | None => mkRecord rpath (List.map ord (b64encode (snd f)))
              (Some (lit "base64"))
  end.

(** The scenario of the specification: [a.txt] holding [hello] and
    [b.png] holding the bytes FF D8 FF, with a MIME table that knows the
    two names. *)
Definition scenario_guess (nm : str) : option str :=
  if str_eqb nm (lit "a.txt") then Some (lit "text/plain")
  else if str_eqb nm (lit "b.png") then Some (lit "image/png")
  else None.

Definition scenario_root : node :=
  Dir [(lit "a.txt", File (Ok (list_byte_of_string "hello")));
       (lit "b.png", File (Ok [xff; xd8; xff]))].

(** Entry [k] of the alphabet is an ASCII character other than the
    padding, and [b64_value] maps it back to [k]. *)
Definition alphabet_ok (k : nat) : bool :=
  let c := ord (nth k b64_alphabet b64_pad) in
  (c <? 128) && negb (c =? 61)
  && match b64_value c with
     | Some v => v =? N.of_nat k
     | None => false
     end.

(** The text of the components, each followed by a slash. *)
Definition slashed (comps : list str) : str :=
  concat (List.map (fun c => c ++ [slash]) comps).

(** The written form of a prefix made of a root and of components that are
    each followed by one slash. *)
Definition prefix_of (rt : str) (comps : list str) : str :=
  rt ++ slashed comps.

(** The written form of what [PurePosixPath(remote_prefix)] keeps of the
    prefix, ready to be followed by a relative path. *)
Definition normal_prefix (remote_prefix : str) : str :=
  prefix_of (root (parse_path remote_prefix))
    (parts (parse_path remote_prefix)).

(** The default of the parameter [remote_prefix]. *)
Definition default_remote_prefix : str := lit "my_dir_name/".

Definition is_root (rt : str) : bool :=
  str_eqb rt [] || str_eqb rt [slash] || str_eqb rt [slash; slash].

(** The calls of one tool in a log, with their arguments and outcomes. *)
Fixpoint invocations (tool : str) (tr : list event)
    : list (args * option raised) :=
  match tr with
  | [] => []
  | Invoke t a o :: rest =>
      if str_eqb t tool then (a, o) :: invocations tool rest
      else invocations tool rest
  | _ :: rest => invocations tool rest
  end.

Definition is_session_event (ev : event) : bool :=
  match ev with Connect _ _ | Release => true | _ => false end.

(** An outcome of [create_branch] after which the workflow goes on:
    a normal return, or an [Exception]. *)
Definition goes_on (o : option raised) : bool :=
  match o with
  | Some (Signal _) => false
  | _ => true
  end.

Definition branch_event (branch_name : str) (o : option raised) : event :=
  Invoke (lit "create_branch") (create_branch_args branch_name) o.

(** The log of the branch step when the console takes its message. *)
Definition branch_events (branch_name : str) (o : option raised)
    : list event :=
  [branch_event branch_name o;
   Print (match o with
          | None => msg_branch_created branch_name
          | Some _ => msg_branch_continue branch_name
          end) None].

Definition push_event (branch_name : str) (files : list FileRecord)
    (pr_title : str) (o : option raised) : event :=
  Invoke (lit "push_files") (push_files_args branch_name files pr_title) o.

Definition pr_event (pr_title pr_body branch_name : str)
    (o : option raised) : event :=
  Invoke (lit "create_pull_request")
    (create_pull_request_args pr_title pr_body branch_name) o.

(** The ways through the branch step after which the workflow goes on to
    the push: the call returned and its message was printed; the call
    raised an [Exception] and the continuation message was printed; the
    call returned, the print of its message raised an [Exception], which
    the handler caught as well, and the continuation message was
    printed. *)
Inductive branch_done (branch_name : str) : list event -> Prop :=
| branch_created :
    branch_done branch_name
      [branch_event branch_name None;
       Print (msg_branch_created branch_name) None]
| branch_continued cls msg :
    branch_done branch_name
      [branch_event branch_name (Some (Error cls msg));
       Print (msg_branch_continue branch_name) None]
| branch_print_caught cls msg :
    branch_done branch_name
      [branch_event branch_name None;
       Print (msg_branch_created branch_name) (Some (Error cls msg));
       Print (msg_branch_continue branch_name) None].

(** The ways through the branch step that end the workflow: an exception
    outside [Exception] from the call or from the print in the [try]
    block, or any exception from the print in the handler. *)
Inductive branch_stops (branch_name : str)
    : list event -> raised -> Prop :=
| stops_call_signal cls :
    branch_stops branch_name
      [branch_event branch_name (Some (Signal cls))]
      (Signal cls)
| stops_print_signal cls :
    branch_stops branch_name
      [branch_event branch_name None;
       Print (msg_branch_created branch_name) (Some (Signal cls))]
      (Signal cls)
| stops_handler cls msg e :
    branch_stops branch_name
      [branch_event branch_name (Some (Error cls msg));
       Print (msg_branch_continue branch_name) (Some e)]
      e
| stops_handler_after_print cls msg e :
    branch_stops branch_name
      [branch_event branch_name None;
       Print (msg_branch_created branch_name) (Some (Error cls msg));
       Print (msg_branch_continue branch_name) (Some e)]
      e.

(** The ways through the body of the [async with] block: what is logged
    and how the block ends. *)
Inductive body_run (files : list FileRecord)
    (branch_name pr_title pr_body : str)
    : list event -> result unit -> Prop :=
| body_no_tool key :
    In key [lit "create_branch"; lit "push_files";
            lit "create_pull_request"] ->
    body_run files branch_name pr_title pr_body
      [] (Raise (Error "KeyError" key))
| body_branch_stops tr e :
    branch_stops branch_name tr e ->
    body_run files branch_name pr_title pr_body tr (Raise e)
| body_push_raises tr e :
    branch_done branch_name tr ->
    body_run files branch_name pr_title pr_body
      (tr ++ [push_event branch_name files pr_title (Some e)])
      (Raise e)
| body_pr_raises tr e :
    branch_done branch_name tr ->
    body_run files branch_name pr_title pr_body
      (tr ++ [push_event branch_name files pr_title None;
              pr_event pr_title pr_body branch_name (Some e)])
      (Raise e)
| body_print_raises tr e :
    branch_done branch_name tr ->
    body_run files branch_name pr_title pr_body
      (tr ++ [push_event branch_name files pr_title None;
              pr_event pr_title pr_body branch_name None;
              Print msg_pr_done (Some e)])
      (Raise e)
| body_done tr :
    branch_done branch_name tr ->
    body_run files branch_name pr_title pr_body
      (tr ++ [push_event branch_name files pr_title None;
              pr_event pr_title pr_body branch_name None;
              Print msg_pr_done None])
      (Ok tt).

(** The ways through the whole workflow. *)
Inductive workflow_run (w : World)
    (my_dir_name dir_name branch_name pr_title pr_body git_token : str)
    : list event * result unit -> Prop :=
| run_collect_raises e :
    mCall_CollectFiles (mime_db w) (local_fs w dir_name) my_dir_name
    = Raise e ->
    workflow_run w my_dir_name dir_name branch_name pr_title pr_body
      git_token ([], Raise e)
| run_connect_raises files e :
    mCall_CollectFiles (mime_db w) (local_fs w dir_name) my_dir_name
    = Ok files ->
    aenter (service w) git_token = Some e ->
    workflow_run w my_dir_name dir_name branch_name pr_title pr_body
      git_token ([Connect git_token (Some e)], Raise e)
| run_session files tr res :
    mCall_CollectFiles (mime_db w) (local_fs w dir_name) my_dir_name
    = Ok files ->
    aenter (service w) git_token = None ->
    body_run files branch_name pr_title pr_body tr res ->
    workflow_run w my_dir_name dir_name branch_name pr_title pr_body
      git_token (Connect git_token None :: tr ++ [Release], res).

(** Worlds for the scenario: the directory [week1] of the scenario, a
    service that is up and whose three tools answer as given, and a
    console that answers as given. *)
Definition scenario_service (branch push pr : option raised) : Remote :=
  mkRemote (fun _ => None)
    [mkTool (lit "create_branch") (fun _ _ => branch);
     mkTool (lit "push_files") (fun _ _ => push);
     mkTool (lit "create_pull_request") (fun _ _ => pr)].

Definition scenario_world_on (console : str -> option raised)
    (branch push pr : option raised) : World :=
  mkWorld
    (fun d => if str_eqb d (lit "week1") then Some scenario_root else None)
    scenario_guess
    (scenario_service branch push pr)
    (fun _ => console).

(** The scenario on a console that takes every message. *)
Definition scenario_world (branch push pr : option raised) : World :=
  scenario_world_on (fun _ => None) branch push pr.

(** A console that cannot encode the messages. *)
Definition ascii_console (msg : str) : option raised :=
  if forallb (fun c => c <? 128) msg then None
  else Some (Error "UnicodeEncodeError" []).

(** A directory with a file that cannot be read. *)
Definition locked_root : node :=
  Dir [(lit "a.txt", File (Raise (Error "PermissionError" [])))].

Definition locked_world : World :=
  mkWorld
    (fun d => if str_eqb d (lit "week1") then Some locked_root else None)
    scenario_guess
    (scenario_service None None None)
    (fun _ _ => None).

(** The scenario's directory with one more file, which cannot be read,
    and with one more entry, on which [stat] raises. *)
Definition scenario_root_locked : node :=
  Dir [(lit "a.txt", File (Ok (list_byte_of_string "hello")));
       (lit "b.png", File (Ok [xff; xd8; xff]));
       (lit "c.txt", File (Raise (Error "PermissionError" [])))].

Definition scenario_root_unstatable : node :=
  Dir [(lit "a.txt", File (Ok (list_byte_of_string "hello")));
       (lit "b.png", File (Ok [xff; xd8; xff]));
       (lit "noexec",
        Dir [(lit "inner", Unstatable (Error "PermissionError" []))])].

(** A root whose name is too long for [stat]. *)
Definition long_name_root : node :=
  Unstatable (Error "OSError" (lit "File name too long")).

(** The tools called in a log, in order. *)
Fixpoint tool_names (tr : list event) : list str :=
  match tr with
  | [] => []
  | Invoke t _ _ :: rest => t :: tool_names rest
  | _ :: rest => tool_names rest
  end.

(** [reach n rel m]: following the names [rel] from the directory [n]
    leads to the entry [m]. *)
Inductive reach : node -> list str -> node -> Prop :=
| reach_entry entries nm m :
    In (nm, m) entries -> reach (Dir entries) [nm] m
| reach_below entries nm d rel m :
    In (nm, d) entries -> reach d rel m ->
    reach (Dir entries) (nm :: rel) m.

(** The UTF-8 bytes of one code point, as numbers; [None] for a surrogate
    or a value above U+10FFFF. *)
Definition encode_cp (cp : N) : option (list N) :=
  if cp <? 128 then Some [cp]
  else if cp <? 2048 then Some [192 + cp / 64; 128 + cp mod 64]
  else if cp <? 65536 then
    if is_surrogate cp then None
    else Some [224 + cp / 4096; 128 + (cp / 64) mod 64; 128 + cp mod 64]
  else if cp <=? 1114111 then
    Some [240 + cp / 262144; 128 + (cp / 4096) mod 64;
          128 + (cp / 64) mod 64; 128 + cp mod 64]
  else None.

(** [s.encode("utf-8")]; [None] is [UnicodeEncodeError]. *)
Fixpoint utf8_encode (s : str) : option (list byte) :=
  match s with
  | [] => Some []
  | cp :: s' =>
      match encode_cp cp with
      | Some ns =>
          match bytes_of ns, utf8_encode s' with
          | Some b, Some bs => Some (b ++ bs)
          | _, _ => None
          end
      | None => None
      end
  end.

(** No name occurs twice in the list. *)
Fixpoint nodupb (l : list str) : bool :=
  match l with
  | [] => true
  | x :: rest => negb (existsb (str_eqb x) rest) && nodupb rest
  end.

(** No directory below [n] has two entries of the same name. *)
Fixpoint names_distinct (n : node) : bool :=
  match n with
  | Dir entries =>
      nodupb (List.map fst entries)
      && forallb (fun e => names_distinct (snd e)) entries
  | _ => true
  end.

Definition root_names_distinct (root : option node) : bool :=
  match root with Some n => names_distinct n | None => true end.

(** A tree with a file two levels down, and a service whose catalog has
    no [create_pull_request]. *)
Definition nested_root : node :=
  Dir [(lit "docs",
        Dir [(lit "img", Dir [(lit "b.png", File (Ok [xff; xd8; xff]))]);
             (lit "a.txt", File (Ok (list_byte_of_string "hello")))])].

Definition service_without_pr : Remote :=
  mkRemote (fun _ => None)
    [mkTool (lit "create_branch") (fun _ _ => None);
     mkTool (lit "push_files") (fun _ _ => None)].

Definition world_without_pr : World :=
  mkWorld
    (fun d => if str_eqb d (lit "week1") then Some scenario_root else None)
    scenario_guess
    service_without_pr
    (fun _ _ => None).

(** The call of the scenario in a given world. *)
Definition scenario_run (w : World) : list event * result unit :=
  rCall_PushAndPR w (lit "alice/") (lit "week1") (lit "feat/alice-week1")
    (lit "Week 1") (lit "Report") (lit "token").

Definition scenario_files : list FileRecord :=
  [mkRecord (lit "alice/a.txt") (lit "hello") None;
   mkRecord (lit "alice/b.png") (lit "/9j/") (Some (lit "base64"))].

(** ** Tactics *)

(** Names quotient and remainder of [x] by the constant [d] and keeps
    their defining facts, so that [lia] sees a linear problem. *)
Ltac euclid x d :=
  let Hd := fresh "Hdiv" in
  let Hm := fresh "Hmod" in
  let q := fresh "q" in
  let r := fresh "r" in
  pose proof (N.div_mod' x d) as Hd;
  assert (Hm : x mod d < d) by (apply N.mod_upper_bound; discriminate);
  set (q := x / d) in *; set (r := x mod d) in *;
  clearbody q r.

(** Closes a goal whose hypothesis [H] equates two different events:
    different constructors, tools, outcomes or messages. *)
Ltac event_clash H :=
  exfalso;
  first
    [ discriminate H
    | injection H; intros;
      match goal with
      | Hn : lit _ = lit _ |- _ => vm_compute in Hn; discriminate Hn
      end
    | injection H; intros; congruence
    | injection H; intros;
      match goal with
      | Hm : _ = _ :> str |- _ =>
          unfold msg_branch_created, msg_branch_continue, msg_pr_done in Hm;
          cbn [app] in Hm; discriminate Hm
      end ].

(** Splits a hypothesis [H : In ev l] on a list that is written out and
    closes the cases in which [ev] cannot be the element. *)
Ltac split_in H :=
  unfold branch_events, branch_event, push_event, pr_event in H;
  cbn [app In] in H;
  repeat (destruct H as [H|H]; [try solve [event_clash H]|]);
  try contradiction.

(** All the ways of [body_run], with the branch step written out. *)
Ltac body_cases Hb :=
  let Hs := fresh "Hs" in
  destruct Hb as [? ?|? ? Hs|? ? Hs|? ? Hs|? ? Hs|? Hs];
  [ | destruct Hs .. ].

(** After a branch step with the log [blog], the run goes through the
    push, the pull request and the last message, whatever they answer. *)
Ltac finish_run w pf pr files blog Hblog :=
  destruct (respond pf _ _) as [?e|]; cbn [app];
  [ apply (run_session _ _ _ _ _ _ _ files (blog ++ [_]));
    [assumption|assumption|apply body_push_raises; exact Hblog]
  | destruct (respond pr _ _) as [?e|]; cbn [app];
    [ apply (run_session _ _ _ _ _ _ _ files (blog ++ [_; _]));
      [assumption|assumption|apply body_pr_raises; exact Hblog]
    | match goal with
      | |- context [stdout w ?h msg_pr_done] =>
          destruct (stdout w h msg_pr_done) as [?e|]
      end;
      cbn [app];
      [ apply (run_session _ _ _ _ _ _ _ files (blog ++ [_; _; _]));
        [assumption|assumption|apply body_print_raises; exact Hblog]
      | apply (run_session _ _ _ _ _ _ _ files (blog ++ [_; _; _]));
        [assumption|assumption|apply body_done; exact Hblog] ] ] ].

(** * Properties *)

(** ** Bytes *)

Lemma ord_bound (b : byte) : ord b < 256.
Proof.
  unfold ord. pose proof (Byte.to_N_bounded b). lia.
Qed.

Lemma byte_of_ord (b : byte) : byte_of (ord b) = Some b.
Proof.
  apply Byte.of_to_N.
Qed.

(** Induction over a byte string three bytes at a time, the way base64
    reads it. *)
Lemma list_ind3 {A} (P : list A -> Prop) :
  P [] ->
  (forall a, P [a]) ->
  (forall a b, P [a; b]) ->
  (forall a b c rest, P rest -> P (a :: b :: c :: rest)) ->
  forall l, P l.
Proof.
  intros H0 H1 H2 H3.
  fix IH 1.
  intros [|a [|b [|c rest]]].
  - exact H0.
  - apply H1.
  - apply H2.
  - apply H3, IH.
Qed.

(** ** The base64 alphabet *)

Lemma alphabet_table : forallb alphabet_ok (seq 0 64) = true.
Proof.
  vm_compute. reflexivity.
Qed.

Lemma b64_char_spec (i : N) :
  let c := ord (b64_char i) in
  c < 128 /\ c <> 61 /\ b64_value c = Some (i mod 64).
Proof.
  pose proof alphabet_table as T.
  rewrite forallb_forall in T.
  assert (Hk : In (N.to_nat (i mod 64)) (seq 0 64)).
  { apply in_seq.
    assert (i mod 64 < 64) by (apply N.mod_upper_bound; discriminate).
    set (k := i mod 64) in *. clearbody k. lia. }
  specialize (T _ Hk). unfold alphabet_ok in T.
  unfold b64_char. cbv zeta in *.
  set (c := ord (nth (N.to_nat (i mod 64)) b64_alphabet b64_pad)) in *.
  apply andb_true_iff in T as [T Hv].
  apply andb_true_iff in T as [Hlt Hne].
  apply N.ltb_lt in Hlt.
  apply negb_true_iff, N.eqb_neq in Hne.
  repeat split; try assumption.
  destruct (b64_value c) as [v|]; [|discriminate].
  apply N.eqb_eq in Hv. rewrite Hv, N2Nat.id. reflexivity.
Qed.

Lemma pad_ord : ord b64_pad = 61.
Proof. reflexivity. Qed.

(** ** UTF-8 on ASCII *)

Lemma utf8_decode_ascii (bs : list byte) :
  Forall (fun b => ord b < 128) bs ->
  utf8_decode bs = Some (List.map ord bs).
Proof.
  induction 1 as [|b bs Hb _ IH]; [reflexivity|].
  cbn [utf8_decode List.map].
  apply N.ltb_lt in Hb. rewrite Hb, IH. reflexivity.
Qed.

Lemma b64encode_ascii (raw : list byte) :
  Forall (fun b => ord b < 128) (b64encode raw).
Proof.
  induction raw as [|a|a b|a b c rest IH] using list_ind3;
    cbn [b64encode]; cbv zeta;
    repeat apply Forall_cons; try apply Forall_nil; try assumption;
    first [apply b64_char_spec | rewrite pad_ord; lia].
Qed.

(** [base64.b64encode(raw).decode()] never raises: the text has the code
    points of the encoded bytes. *)
Lemma b64_text (raw : list byte) :
  utf8_decode (b64encode raw) = Some (List.map ord (b64encode raw)).
Proof.
  apply utf8_decode_ascii, b64encode_ascii.
Qed.

(** ** Base64 round trip *)

(** The four six-bit digits of a 24-bit number. *)
Lemma sextets (n : N) :
  n < 16777216 ->
  ((n / 262144) mod 64) * 262144 + ((n / 4096) mod 64) * 4096
  + ((n / 64) mod 64) * 64 + n mod 64 = n.
Proof.
  intros Hn.
  replace (n / 262144) with (n / 64 / 64 / 64)
    by (rewrite !N.Div0.div_div; reflexivity).
  replace (n / 4096) with (n / 64 / 64)
    by (rewrite !N.Div0.div_div; reflexivity).
  euclid (n / 64 / 64 / 64) 64.
  euclid (n / 64 / 64) 64.
  euclid (n / 64) 64.
  euclid n 64.
  lia.
Qed.

(** The three bytes of a 24-bit number. *)
Lemma bytes3 (a b c : N) :
  a < 256 -> b < 256 -> c < 256 ->
  let n := a * 65536 + b * 256 + c in
  n / 65536 = a /\ (n / 256) mod 256 = b /\ n mod 256 = c.
Proof.
  intros Ha Hb Hc n.
  assert (H1 : n / 65536 = a).
  { euclid n 65536. subst n. lia. }
  assert (H2 : n / 256 = a * 256 + b).
  { euclid n 256. subst n. lia. }
  rewrite H2. repeat split; try assumption.
  - euclid (a * 256 + b) 256. lia.
  - euclid n 256. subst n. lia.
Qed.

Lemma b64_value_char (i : N) :
  b64_value (ord (b64_char i)) = Some (i mod 64).
Proof. apply b64_char_spec. Qed.

Lemma b64_char_not_pad (i : N) : (ord (b64_char i) =? 61) = false.
Proof. apply N.eqb_neq, b64_char_spec. Qed.

(** A final group made of one byte. *)
Lemma b64_roundtrip_1 (a : byte) :
  b64decode (List.map ord (b64encode [a])) = Some [a].
Proof.
  cbn [b64encode List.map b64decode]. cbv zeta.
  rewrite pad_ord, N.eqb_refl.
  rewrite !b64_value_char.
  pose proof (ord_bound a) as Ha.
  set (n := ord a * 65536) in *.
  assert (Hn : n < 16777216) by (subst n; lia).
  pose proof (sextets n Hn) as Hs.
  assert (H0 : (n / 64) mod 64 = 0 /\ n mod 64 = 0).
  { replace (n / 64) with (ord a * 1024).
    - replace (ord a * 1024) with (ord a * 16 * 64) by lia.
      subst n. replace (ord a * 65536) with (ord a * 1024 * 64) by lia.
      rewrite !N.Div0.mod_mul. split; reflexivity.
    - subst n. replace (ord a * 65536) with (ord a * 1024 * 64) by lia.
      rewrite N.div_mul by discriminate. reflexivity. }
  destruct H0 as [H2 H3]. rewrite H2, H3 in Hs.
  replace ((n / 262144) mod 64 * 262144 + (n / 4096) mod 64 * 4096)
    with n by lia.
  subst n. rewrite N.div_mul by discriminate.
  cbn [bytes_of fold_right]. rewrite byte_of_ord. reflexivity.
Qed.

(** A final group made of two bytes. *)
Lemma b64_roundtrip_2 (a b : byte) :
  b64decode (List.map ord (b64encode [a; b])) = Some [a; b].
Proof.
  cbn [b64encode List.map b64decode]. cbv zeta.
  rewrite pad_ord, N.eqb_refl, b64_char_not_pad.
  rewrite !b64_value_char.
  pose proof (ord_bound a) as Ha. pose proof (ord_bound b) as Hb.
  set (n := ord a * 65536 + ord b * 256) in *.
  assert (Hn : n < 16777216) by (subst n; lia).
  pose proof (sextets n Hn) as Hs.
  assert (H3 : n mod 64 = 0).
  { subst n.
    replace (ord a * 65536 + ord b * 256)
      with ((ord a * 1024 + ord b * 4) * 64) by lia.
    apply N.Div0.mod_mul. }
  rewrite H3 in Hs.
  replace ((n / 262144) mod 64 * 262144 + (n / 4096) mod 64 * 4096
           + (n / 64) mod 64 * 64) with n by lia.
  destruct (bytes3 (ord a) (ord b) 0 Ha Hb eq_refl) as (E1 & E2 & _).
  cbv zeta in E1, E2. rewrite N.add_0_r in E1, E2. fold n in E1, E2.
  rewrite E1, E2.
  cbn [bytes_of fold_right]. rewrite !byte_of_ord. reflexivity.
Qed.

(** Decoding what [b64encode] produced gives the bytes back. *)
Lemma b64_roundtrip (raw : list byte) :
  b64decode (List.map ord (b64encode raw)) = Some raw.
Proof.
  induction raw as [|a|a b|a b c rest IH] using list_ind3.
  - reflexivity.
  - apply b64_roundtrip_1.
  - apply b64_roundtrip_2.
  - change (b64encode (a :: b :: c :: rest))
      with (let n := ord a * 65536 + ord b * 256 + ord c in
            b64_char (n / 262144) :: b64_char (n / 4096)
              :: b64_char (n / 64) :: b64_char n :: b64encode rest).
    cbv zeta. cbn [List.map b64decode].
    rewrite b64_char_not_pad, !b64_value_char, IH.
    pose proof (ord_bound a) as Ha. pose proof (ord_bound b) as Hb.
    pose proof (ord_bound c) as Hc.
    destruct (bytes3 (ord a) (ord b) (ord c) Ha Hb Hc) as (E1 & E2 & E3).
    cbv zeta in E1, E2, E3.
    set (n := ord a * 65536 + ord b * 256 + ord c) in *.
    assert (Hn : n < 16777216) by (subst n; lia).
    rewrite (sextets n Hn), E1, E2, E3.
    cbn [bytes_of fold_right]. rewrite !byte_of_ord. reflexivity.
Qed.

(** ** The walk *)

(** Induction over a tree, with the hypothesis for every entry of a
    directory. *)
Lemma node_induction (P : node -> Prop) :
  (forall data, P (File data)) ->
  P Special ->
  (forall entries,
      Forall (fun e => P (snd e)) entries -> P (Dir entries)) ->
  (forall e, P (Unstatable e)) ->
  (forall e, P (Broken e)) ->
  forall n, P n.
Proof.
  intros HF HS HD HU HB.
  fix IH 1.
  intros [data| |entries|e|e].
  - apply HF.
  - exact HS.
  - apply HD. induction entries as [|e entries IHe]; constructor.
    + apply IH.
    + exact IHe.
  - apply HU.
  - apply HB.
Qed.

Lemma str_eqb_eq (a b : str) : str_eqb a b = true <-> a = b.
Proof.
  unfold str_eqb. destruct (list_eq_dec N.eq_dec a b); split;
    intros; congruence.
Qed.

Lemma str_eqb_refl (a : str) : str_eqb a a = true.
Proof. apply str_eqb_eq. reflexivity. Qed.

Lemma valid_name_nonempty (x : str) : valid_name x = true -> x <> [].
Proof.
  intros H ->. discriminate H.
Qed.

Lemma below_entry (nm : str) (it : walked) (rel : list str) (m : node) :
  below nm it = Ok (rel, m) <->
  exists rel', it = Ok (rel', m) /\ rel = nm :: rel'.
Proof.
  destruct it as [[rel' m']|e]; cbn [below]; split.
  - intros H. injection H as <- <-. eauto.
  - intros (r & H & ->). injection H as <- <-. reflexivity.
  - discriminate.
  - intros (r & H & _). discriminate H.
Qed.

(** The walk of a directory lists exactly the entries that can be reached
    from it by following names, at any depth. *)
Lemma rglob_dir_reach (n : node) :
  forall rel m, In (Ok (rel, m)) (rglob_dir n) <-> reach n rel m.
Proof.
  induction n as [data| |entries IH|e|e] using node_induction;
    intros rel m.
  - split; [intros []|intros H; inversion H].
  - split; [intros []|intros H; inversion H].
  - rewrite Forall_forall in IH. cbn [rglob_dir]. split.
    + intros Hin. apply in_app_or in Hin as [Hin|Hin].
      * apply in_map_iff in Hin as ([nm c] & He & Hine).
        cbn [fst snd] in He. injection He as <- <-.
        apply reach_entry, Hine.
      * apply in_flat_map in Hin as ([nm d] & Hine & Hin).
        apply in_map_iff in Hin as (it & Hit & Hinq).
        cbn [fst snd] in *.
        apply below_entry in Hit as (rel' & -> & ->).
        apply (reach_below _ _ d); [exact Hine|].
        apply (IH _ Hine). exact Hinq.
    + intros H. inversion H as [es nm m' Hin|es nm d rel' m' Hin Hr];
        subst; apply in_or_app.
      * left. apply in_map_iff. exists (nm, m). auto.
      * right. apply in_flat_map. exists (nm, d). split; [exact Hin|].
        apply in_map_iff. exists (Ok (rel', m)). split; [reflexivity|].
        apply (IH _ Hin). exact Hr.
  - split; [intros []|intros H; inversion H].
  - split; [intros [H|[]]; discriminate H|intros H; inversion H].
Qed.

(** So does the walk from a root. *)
Lemma rglob_reach (n : node) (rel : list str) (m : node) :
  In (Ok (rel, m)) (rglob (Some n)) <-> reach n rel m.
Proof.
  rewrite <- rglob_dir_reach. unfold rglob.
  destruct n as [data| |entries|e|e]; cbn [is_dir rglob_dir];
    try reflexivity.
  split; [intros [H|[]]; discriminate H|intros []].
Qed.

(** What is reached in a tree with valid names is reached by a non-empty
    list of valid names. *)
Lemma reach_names (n : node) (rel : list str) (m : node) :
  names_ok n = true ->
  reach n rel m ->
  rel <> [] /\ Forall (fun x => valid_name x = true) rel.
Proof.
  intros Hok Hr. induction Hr as [entries nm m Hin|entries nm d rel m Hin Hr IH];
    cbn [names_ok] in Hok; rewrite forallb_forall in Hok;
    specialize (Hok _ Hin); cbn [fst snd] in Hok;
    apply andb_true_iff in Hok as [Hv Hsub].
  - split; [discriminate|]. constructor; [exact Hv|constructor].
  - destruct (IH Hsub) as [_ Hall].
    split; [discriminate|]. constructor; assumption.
Qed.

Lemma select_in (it : walked) (rel : list str) (raw : list byte) :
  In (rel, raw) (select it) <-> it = Ok (rel, File (Ok raw)).
Proof.
  destruct it as [[rel' [[raw'|e]| |es|e|e]]|e]; cbn [select In]; split;
    intros H; try contradiction; try discriminate H.
  - destruct H as [H|[]]. injection H as <- <-. reflexivity.
  - injection H as <- <-. left. reflexivity.
Qed.

Lemma regular_files_in (root : option node) (rel : list str)
    (raw : list byte) :
  In (rel, raw) (regular_files root)
  <-> In (Ok (rel, File (Ok raw))) (rglob root).
Proof.
  unfold regular_files. rewrite in_flat_map. split.
  - intros (it & Hin & Hsel). apply select_in in Hsel. subst it. exact Hin.
  - intros Hin. exists (Ok (rel, File (Ok raw))). split; [exact Hin|].
    apply select_in. reflexivity.
Qed.

Lemma regular_files_names (root : option node) :
  root_names_ok root = true ->
  forall rel raw, In (rel, raw) (regular_files root) ->
    rel <> [] /\ Forall (fun x => valid_name x = true) rel.
Proof.
  intros Hok rel raw Hin. apply regular_files_in in Hin.
  destruct root as [n|]; [|contradiction].
  apply rglob_reach in Hin. eapply reach_names; eassumption.
Qed.

(** ** The collector loop *)

Lemma clean_no_error (it : walked) :
  clean it = true <-> step_error it = None.
Proof.
  destruct it as [[rel [[raw|e]| |es|e|e]]|e]; cbn; split;
    intros H; try reflexivity; discriminate H.
Qed.

Section CollectorFacts.

Variable guess_type : str -> option str.
Variable remote_prefix : str.

Lemma collect_step_clean (files : list FileRecord) (it : walked) :
  clean it = true ->
  collect_step guess_type remote_prefix files it
  = Ok (files ++ List.map (record_for guess_type remote_prefix)
                   (select it)).
Proof.
  destruct it as [[rel n]|e]; [|discriminate]. cbn [clean]. intros Hr.
  destruct n as [[raw|e]| |es|e|e]; try discriminate;
    cbn [collect_step is_file select List.map];
    try (rewrite app_nil_r; reflexivity).
  unfold collect_file. cbn [read_bytes]. unfold record_for. cbn [fst snd].
  destruct (if is_text_mime (guess_type (name rel))
            then utf8_decode raw else None) as [s|].
  - reflexivity.
  - rewrite b64_text. reflexivity.
Qed.

Lemma collect_step_error (files : list FileRecord) (it : walked)
    (e : raised) :
  step_error it = Some e ->
  collect_step guess_type remote_prefix files it = Raise e.
Proof.
  destruct it as [[rel [[raw|e']| |es|e'|e']]|e']; cbn [step_error];
    intros H; try discriminate H; injection H as ->; reflexivity.
Qed.

Lemma collect_loop_clean (todo : list walked) :
  forall files,
    forallb clean todo = true ->
    collect_loop guess_type remote_prefix files todo
    = Ok (files ++ List.map (record_for guess_type remote_prefix)
                     (flat_map select todo)).
Proof.
  induction todo as [|p todo IH]; intros files Hall.
  - cbn. rewrite app_nil_r. reflexivity.
  - cbn [forallb] in Hall. apply andb_true_iff in Hall as [Hp Hall].
    cbn [collect_loop flat_map].
    rewrite (collect_step_clean files p Hp), (IH _ Hall).
    rewrite map_app, app_assoc. reflexivity.
Qed.

Lemma collect_loop_app (a b : list walked) :
  forall files,
    collect_loop guess_type remote_prefix files (a ++ b)
    = match collect_loop guess_type remote_prefix files a with
      | Ok files' => collect_loop guess_type remote_prefix files' b
      | Raise e => Raise e
      end.
Proof.
  induction a as [|p a IH]; intros files; [reflexivity|].
  cbn [app collect_loop].
  destruct (collect_step guess_type remote_prefix files p);
    [apply IH|reflexivity].
Qed.

(** A loop that raises does so at the first step of the walk at which
    something raises. *)
Lemma collect_loop_raise (e : raised) (todo : list walked) :
  forall files,
    collect_loop guess_type remote_prefix files todo = Raise e ->
    exists pre it post,
      todo = pre ++ it :: post
      /\ forallb clean pre = true
      /\ step_error it = Some e.
Proof.
  induction todo as [|p todo IH]; intros files H; [discriminate H|].
  cbn [collect_loop] in H.
  destruct (clean p) eqn:Hp.
  - rewrite (collect_step_clean files p Hp) in H.
    destruct (IH _ H) as (pre & it & post & -> & Hpre & Hit).
    exists (p :: pre), it, post. split; [reflexivity|].
    cbn [forallb]. rewrite Hp, Hpre. auto.
  - destruct (step_error p) as [e'|] eqn:He.
    + rewrite (collect_step_error files p e' He) in H. injection H as ->.
      exists [], p, todo. auto.
    + apply clean_no_error in He. rewrite He in Hp. discriminate Hp.
Qed.

Lemma collect_loop_dirty (todo : list walked) :
  forall files,
    forallb clean todo = false ->
    exists e, collect_loop guess_type remote_prefix files todo = Raise e.
Proof.
  induction todo as [|p todo IH]; intros files Hall; [discriminate|].
  cbn [forallb] in Hall. cbn [collect_loop].
  destruct (clean p) eqn:Hp.
  - rewrite (collect_step_clean files p Hp). apply IH, Hall.
  - destruct (step_error p) as [e|] eqn:He.
    + exists e. rewrite (collect_step_error files p e He). reflexivity.
    + apply clean_no_error in He. rewrite He in Hp. discriminate Hp.
Qed.

(** When nothing raises below the root the collector returns one record
    per regular file, in walk order. *)
Lemma collect_all (root : option node) :
  all_readable root = true ->
  mCall_CollectFiles guess_type root remote_prefix
  = Ok (List.map (record_for guess_type remote_prefix)
          (regular_files root)).
Proof.
  intros H. unfold mCall_CollectFiles.
  rewrite (collect_loop_clean _ [] H). reflexivity.
Qed.

(** Otherwise it raises. *)
Lemma collect_raises (root : option node) :
  all_readable root = false ->
  exists e, mCall_CollectFiles guess_type root remote_prefix = Raise e.
Proof.
  intros H. apply collect_loop_dirty, H.
Qed.

End CollectorFacts.

Lemma Forall2_map_r {A B} (R : A -> B -> Prop) (g : A -> B) (l : list A) :
  (forall a, In a l -> R a (g a)) -> Forall2 R l (List.map g l).
Proof.
  induction l as [|a l IH]; intros H; cbn [List.map]; constructor.
  - apply H. left. reflexivity.
  - apply IH. intros b Hb. apply H. right. exact Hb.
Qed.

(** ** The collector: claims *)

Example scenario_collect :
  mCall_CollectFiles scenario_guess (Some scenario_root) (lit "alice/")
  = Ok [mkRecord (lit "alice/a.txt") (lit "hello") None;
        mkRecord (lit "alice/b.png") (lit "/9j/") (Some (lit "base64"))].
Proof. vm_compute. reflexivity. Qed.

(** C1, as the code has it.  When nothing raises below the root (the walk
    does not, and no entry does on [is_file()] or [read_bytes()]), the
    collector returns, and for every regular file that is reached from the
    root, whose name has a guessed MIME type starting with [text/] and
    whose bytes decode as UTF-8, the list holds the record at the remote
    path of the file, without encoding field, with the decoded text as
    content. *)
Theorem text_file_record (guess_type : str -> option str)
    (root : node) (remote_prefix : str) :
  all_readable (Some root) = true ->
  exists files,
    mCall_CollectFiles guess_type (Some root) remote_prefix = Ok files /\
    forall rel raw m s,
      reach root rel (File (Ok raw)) ->
      guess_type (name rel) = Some m ->
      startswith (lit "text/") m = true ->
      utf8_decode raw = Some s ->
      In (mkRecord (remote_path remote_prefix rel) s None) files.
Proof.
  intros Hread. eexists. split; [apply collect_all, Hread|].
  intros rel raw m s Hreach Hm Hp Hs.
  apply in_map_iff. exists (rel, raw). split.
  - unfold record_for, is_text_mime. cbn [fst snd].
    rewrite Hm, Hp, Hs.
    destruct m as [|c m]; [discriminate Hp|]. reflexivity.
  - apply regular_files_in, rglob_reach, Hreach.
Qed.

Lemma text_file_record_witness :
  all_readable (Some scenario_root) = true /\
  exists files,
    mCall_CollectFiles scenario_guess (Some scenario_root) (lit "alice/")
    = Ok files /\
    forall rel raw m s,
      reach scenario_root rel (File (Ok raw)) ->
      scenario_guess (name rel) = Some m ->
      startswith (lit "text/") m = true ->
      utf8_decode raw = Some s ->
      In (mkRecord (remote_path (lit "alice/") rel) s None) files.
Proof.
  split; [reflexivity|].
  apply (text_file_record scenario_guess scenario_root (lit "alice/")).
  reflexivity.
Defined.

(** C1 as the specification words it fails: [a.txt] is a regular file
    with a [text/] type and valid UTF-8 bytes, and the collector emits no
    record, for it or any other file, because reading [c.txt] beside it
    raises. *)
Lemma text_file_without_record :
  reach scenario_root_locked [lit "a.txt"]
    (File (Ok (list_byte_of_string "hello")))
  /\ scenario_guess (name [lit "a.txt"]) = Some (lit "text/plain")
  /\ startswith (lit "text/") (lit "text/plain") = true
  /\ utf8_decode (list_byte_of_string "hello") = Some (lit "hello")
  /\ mCall_CollectFiles scenario_guess (Some scenario_root_locked)
       (lit "alice/")
     = Raise (Error "PermissionError" []).
Proof.
  split; [apply reach_entry; left; reflexivity|].
  repeat split; vm_compute; reflexivity.
Qed.

(** C2, as the code has it.  When nothing raises below the root, the
    collector returns, and for every regular file that is reached from the
    root and whose MIME type is not guessed, or does not start with
    [text/], or whose bytes are not valid UTF-8, the list holds a record
    at the remote path of the file, with the encoding [base64] and a
    content that base64-decodes to the bytes of the file. *)
Theorem binary_file_record (guess_type : str -> option str)
    (root : node) (remote_prefix : str) :
  all_readable (Some root) = true ->
  exists files,
    mCall_CollectFiles guess_type (Some root) remote_prefix = Ok files /\
    forall rel raw,
      reach root rel (File (Ok raw)) ->
      guess_type (name rel) = None
      \/ (exists m, guess_type (name rel) = Some m
                    /\ startswith (lit "text/") m = false)
      \/ utf8_decode raw = None ->
      exists r,
        In r files
        /\ path r = remote_path remote_prefix rel
        /\ encoding r = Some (lit "base64")
        /\ b64decode (content r) = Some raw.
Proof.
  intros Hread. eexists. split; [apply collect_all, Hread|].
  intros rel raw Hreach Hcase.
  exists (record_for guess_type remote_prefix (rel, raw)). split.
  - apply in_map, regular_files_in, rglob_reach, Hreach.
  - unfold record_for. cbn [fst snd].
    assert (Hnone : (if is_text_mime (guess_type (name rel))
                     then utf8_decode raw else None) = None).
    { destruct Hcase as [Hg|[(m & Hg & Hp)|Hd]].
      - rewrite Hg. reflexivity.
      - rewrite Hg. unfold is_text_mime. rewrite Hp, andb_false_r.
        reflexivity.
      - rewrite Hd. destruct (is_text_mime _); reflexivity. }
    rewrite Hnone. cbn [path encoding content].
    split; [reflexivity|]. split; [reflexivity|apply b64_roundtrip].
Qed.

Lemma binary_file_record_witness :
  all_readable (Some scenario_root) = true /\
  exists files,
    mCall_CollectFiles scenario_guess (Some scenario_root) (lit "alice/")
    = Ok files /\
    forall rel raw,
      reach scenario_root rel (File (Ok raw)) ->
      scenario_guess (name rel) = None
      \/ (exists m, scenario_guess (name rel) = Some m
                    /\ startswith (lit "text/") m = false)
      \/ utf8_decode raw = None ->
      exists r,
        In r files
        /\ path r = remote_path (lit "alice/") rel
        /\ encoding r = Some (lit "base64")
        /\ b64decode (content r) = Some raw.
Proof.
  split; [reflexivity|].
  apply (binary_file_record scenario_guess scenario_root (lit "alice/")).
  reflexivity.
Defined.

(** C2 as the specification words it fails: [b.png] is a regular file
    whose type is not [text/], and the collector emits no record, because
    [is_file()] raises on an entry of a directory beside it that can be
    listed but not searched. *)
Lemma binary_file_without_record :
  reach scenario_root_unstatable [lit "b.png"] (File (Ok [xff; xd8; xff]))
  /\ scenario_guess (name [lit "b.png"]) = Some (lit "image/png")
  /\ startswith (lit "text/") (lit "image/png") = false
  /\ mCall_CollectFiles scenario_guess (Some scenario_root_unstatable)
       (lit "alice/")
     = Raise (Error "PermissionError" []).
Proof.
  split; [apply reach_entry; right; left; reflexivity|].
  repeat split; vm_compute; reflexivity.
Qed.

(** C7.  Collecting an empty root directory returns the empty list. *)
Theorem empty_root_collects_nothing (guess_type : str -> option str)
    (remote_prefix : str) :
  mCall_CollectFiles guess_type (Some (Dir [])) remote_prefix = Ok [].
Proof. reflexivity. Qed.

(** C10, as the code has it.  With a root on which [is_dir()] is false,
    because nothing is there or because what is there is not a
    directory, the collector returns the empty list and does not
    raise. *)
Theorem missing_root_collects_nothing (guess_type : str -> option str)
    (root : option node) (remote_prefix : str) :
  root = None \/ (exists n, root = Some n /\ is_dir n = Ok false) ->
  mCall_CollectFiles guess_type root remote_prefix = Ok [].
Proof.
  intros [->|(n & -> & Hn)]; [reflexivity|].
  unfold mCall_CollectFiles, rglob. rewrite Hn. reflexivity.
Qed.

Lemma missing_root_collects_nothing_witness :
  (Some (File (Ok [xff; xd8; xff])) = None
   \/ (exists n, Some (File (Ok [xff; xd8; xff])) = Some n
                 /\ is_dir n = Ok false))
  /\ mCall_CollectFiles scenario_guess (Some (File (Ok [xff; xd8; xff])))
       (lit "alice/") = Ok [].
Proof.
  assert (H : Some (File (Ok [xff; xd8; xff])) = None
              \/ (exists n, Some (File (Ok [xff; xd8; xff])) = Some n
                            /\ is_dir n = Ok false)).
  { right. eexists. split; reflexivity. }
  split; [exact H|].
  apply (missing_root_collects_nothing scenario_guess
           (Some (File (Ok [xff; xd8; xff]))) (lit "alice/") H).
Defined.

Example missing_root_example :
  mCall_CollectFiles scenario_guess None (lit "alice/") = Ok [].
Proof. reflexivity. Qed.

(** C10 as it is worded fails: a root that does not exist and whose name
    is too long for [stat] makes [is_dir()] raise at the start of the
    walk, and the collector raises. *)
Lemma missing_root_can_raise :
  is_dir long_name_root = Raise (Error "OSError" (lit "File name too long"))
  /\ mCall_CollectFiles scenario_guess (Some long_name_root) (lit "alice/")
     = Raise (Error "OSError" (lit "File name too long")).
Proof.
  split; reflexivity.
Qed.

(** ** Paths *)

Lemma is_component_inv (c : str) :
  is_component c = true ->
  keep_part c = true /\ existsb (N.eqb slash) c = false.
Proof.
  unfold is_component. intros H.
  apply andb_true_iff in H as [Hk Hs].
  apply negb_true_iff in Hs. split; assumption.
Qed.

(** A component starts with a character that is not a slash. *)
Lemma is_component_head (c : str) :
  is_component c = true ->
  exists x t, c = x :: t /\ (x =? slash) = false.
Proof.
  intros H. apply is_component_inv in H as [Hk Hs].
  destruct c as [|x t]; [discriminate Hk|].
  exists x, t. split; [reflexivity|].
  cbn [existsb] in Hs. apply orb_false_iff in Hs as [Hx _].
  rewrite N.eqb_sym. exact Hx.
Qed.

Lemma split_slash_component (c s : str) :
  existsb (N.eqb slash) c = false ->
  split_slash (c ++ slash :: s) = c :: split_slash s.
Proof.
  induction c as [|x c IH]; intros Hc.
  - cbn [app split_slash]. rewrite N.eqb_refl. reflexivity.
  - cbn [existsb] in Hc. apply orb_false_iff in Hc as [Hx Hc].
    cbn [app split_slash]. rewrite N.eqb_sym, Hx, (IH Hc). reflexivity.
Qed.

Lemma slashed_cons (c : str) (comps : list str) :
  slashed (c :: comps) = c ++ slash :: slashed comps.
Proof.
  unfold slashed. cbn [List.map concat]. rewrite <- app_assoc. reflexivity.
Qed.

Lemma split_slash_slashed (comps : list str) :
  forallb is_component comps = true ->
  split_slash (slashed comps) = comps ++ [[]].
Proof.
  induction comps as [|c comps IH]; intros H; [reflexivity|].
  cbn [forallb] in H. apply andb_true_iff in H as [Hc H].
  apply is_component_inv in Hc as [_ Hs].
  rewrite slashed_cons, (split_slash_component _ _ Hs), (IH H).
  reflexivity.
Qed.

Lemma filter_keep_components (comps : list str) :
  forallb is_component comps = true ->
  filter keep_part (comps ++ [[]]) = comps.
Proof.
  induction comps as [|c comps IH]; intros H; [reflexivity|].
  cbn [forallb] in H. apply andb_true_iff in H as [Hc H].
  apply is_component_inv in Hc as [Hk _].
  cbn [app filter]. rewrite Hk, (IH H). reflexivity.
Qed.

Lemma lstrip_slashed (comps : list str) :
  forallb is_component comps = true ->
  lstrip_slash (slashed comps) = slashed comps.
Proof.
  destruct comps as [|c comps]; intros H; [reflexivity|].
  cbn [forallb] in H. apply andb_true_iff in H as [Hc _].
  apply is_component_head in Hc as (x & t & -> & Hx).
  rewrite slashed_cons. cbn [app lstrip_slash]. rewrite Hx. reflexivity.
Qed.

Lemma splitroot_prefix (rt : str) (comps : list str) :
  is_root rt = true ->
  forallb is_component comps = true ->
  splitroot (rt ++ slashed comps) = (rt, slashed comps).
Proof.
  intros Hrt Hc. unfold is_root in Hrt.
  pose proof (lstrip_slashed comps Hc) as Hl.
  apply orb_true_iff in Hrt as [Hrt|Hrt];
    [apply orb_true_iff in Hrt as [Hrt|Hrt]|];
    apply str_eqb_eq in Hrt; subst rt.
  - cbn [app]. destruct comps as [|c comps]; [reflexivity|].
    cbn [forallb] in Hc. apply andb_true_iff in Hc as [Hc _].
    apply is_component_head in Hc as (x & t & -> & Hx).
    rewrite slashed_cons. cbn [app splitroot]. rewrite Hx. reflexivity.
  - cbn [app splitroot]. rewrite N.eqb_refl.
    cbn [lstrip_slash]. rewrite N.eqb_refl, Hl.
    cbn [List.length].
    replace (S (List.length (slashed comps))
             - List.length (slashed comps))%nat with 1%nat by lia.
    reflexivity.
  - cbn [app splitroot]. rewrite N.eqb_refl.
    cbn [lstrip_slash]. rewrite !N.eqb_refl, Hl.
    cbn [List.length].
    replace (S (S (List.length (slashed comps)))
             - List.length (slashed comps))%nat with 2%nat by lia.
    reflexivity.
Qed.

(** A prefix written as a root and slash-terminated components parses to
    that root and those components. *)
Lemma parse_prefix (rt : str) (comps : list str) :
  is_root rt = true ->
  forallb is_component comps = true ->
  parse_path (prefix_of rt comps) = mkPath rt comps.
Proof.
  intros Hrt Hc. unfold parse_path, prefix_of. fold (slashed comps).
  rewrite (splitroot_prefix _ _ Hrt Hc).
  rewrite (split_slash_slashed _ Hc), (filter_keep_components _ Hc).
  reflexivity.
Qed.

Lemma join_slash_cons (x : str) (rest : list str) :
  rest <> [] ->
  join_slash (x :: rest) = x ++ slash :: join_slash rest.
Proof.
  destruct rest; [contradiction|reflexivity].
Qed.

Lemma join_slash_app (comps rel : list str) :
  rel <> [] ->
  join_slash (comps ++ rel) = slashed comps ++ join_slash rel.
Proof.
  intros Hrel. induction comps as [|c comps IH]; [reflexivity|].
  rewrite slashed_cons. cbn [app].
  rewrite join_slash_cons, IH, <- app_assoc; [reflexivity|].
  intros E. apply app_eq_nil in E as [_ E]. contradiction.
Qed.

Lemma join_slash_nonempty (rel : list str) :
  rel <> [] ->
  Forall (fun x => valid_name x = true) rel ->
  join_slash rel <> [].
Proof.
  intros Hne Hall. destruct rel as [|x rel]; [contradiction|].
  inversion Hall as [|? ? Hx _]; subst.
  apply valid_name_nonempty in Hx.
  destruct x as [|c x]; [contradiction|].
  cbn [join_slash]. destruct rel; discriminate.
Qed.

Lemma parse_path_fields (s : str) :
  parse_path s
  = mkPath (fst (splitroot s))
      (filter keep_part (split_slash (snd (splitroot s)))).
Proof.
  unfold parse_path. destruct (splitroot s). reflexivity.
Qed.

Lemma parse_path_root (s : str) : is_root (root (parse_path s)) = true.
Proof.
  rewrite parse_path_fields. cbn [root]. unfold splitroot.
  destruct s as [|c s]; [reflexivity|].
  destruct (c =? slash); [|reflexivity].
  destruct (Nat.eqb _ 2); reflexivity.
Qed.

Lemma split_slash_no_slash (s : str) :
  Forall (fun x => existsb (N.eqb slash) x = false) (split_slash s).
Proof.
  induction s as [|c s IH]; cbn [split_slash].
  - repeat constructor.
  - destruct (c =? slash) eqn:Hc.
    + constructor; [reflexivity|exact IH].
    + destruct (split_slash s) as [|h t]; inversion IH; subst;
        constructor; cbn [existsb]; try rewrite N.eqb_sym, Hc;
        try assumption; try reflexivity; constructor.
Qed.

Lemma parse_path_parts (s : str) :
  forallb is_component (parts (parse_path s)) = true.
Proof.
  rewrite parse_path_fields. cbn [parts].
  apply forallb_forall. intros x Hx.
  apply filter_In in Hx as [Hin Hk].
  pose proof (split_slash_no_slash (snd (splitroot s))) as Hall.
  rewrite Forall_forall in Hall.
  unfold is_component. rewrite Hk, (Hall _ Hin). reflexivity.
Qed.

(** The remote path is the normalised prefix followed by the relative
    components joined by slashes. *)
Lemma remote_path_normal (remote_prefix : str) (rel : list str) :
  rel <> [] ->
  Forall (fun x => valid_name x = true) rel ->
  remote_path remote_prefix rel
  = normal_prefix remote_prefix ++ join_slash rel.
Proof.
  intros Hne Hall. unfold remote_path, normal_prefix, prefix_of.
  unfold joinpath, path_str. cbn [root parts].
  rewrite (join_slash_app _ _ Hne), <- app_assoc.
  pose proof (join_slash_nonempty rel Hne Hall) as Hj.
  destruct (root (parse_path remote_prefix)
            ++ slashed (parts (parse_path remote_prefix))
            ++ join_slash rel) eqn:E; [|reflexivity].
  apply app_eq_nil in E as [_ E]. apply app_eq_nil in E as [_ E].
  contradiction.
Qed.

(** The prefixes that normalisation leaves as they are: a root, then
    components that are each followed by one slash. *)
Lemma normal_prefix_fixed (remote_prefix : str) :
  normal_prefix remote_prefix = remote_prefix
  <-> exists rt comps,
        is_root rt = true
        /\ forallb is_component comps = true
        /\ remote_prefix = prefix_of rt comps.
Proof.
  split.
  - intros H.
    exists (root (parse_path remote_prefix)),
           (parts (parse_path remote_prefix)).
    split; [apply parse_path_root|].
    split; [apply parse_path_parts|].
    symmetry. exact H.
  - intros (rt & comps & Hrt & Hc & ->).
    unfold normal_prefix. rewrite (parse_prefix _ _ Hrt Hc). reflexivity.
Qed.

Lemma path_record_for (guess_type : str -> option str)
    (remote_prefix : str) (f : list str * list byte) :
  path (record_for guess_type remote_prefix f)
  = remote_path remote_prefix (fst f).
Proof.
  unfold record_for.
  destruct (if is_text_mime (guess_type (name (fst f)))
            then utf8_decode (snd f) else None); reflexivity.
Qed.

Example default_prefix_normal :
  normal_prefix default_remote_prefix = default_remote_prefix.
Proof. vm_compute. reflexivity. Qed.

Example normal_prefix_examples :
  normal_prefix (lit "alice") = lit "alice/"
  /\ normal_prefix (lit "a//b/./c") = lit "a/b/c/"
  /\ normal_prefix (lit "///srv") = lit "/srv/"
  /\ normal_prefix (lit "//srv/") = lit "//srv/"
  /\ normal_prefix (lit "") = lit "".
Proof. vm_compute. repeat split. Qed.

(** C3, as the code has it.  The path of every record is the text of
    [PurePosixPath(remote_prefix)] joined with the components of the file
    relative to the root: the normalised prefix, then the components
    separated by forward slashes.  It is the given prefix followed by the
    relative path exactly when the prefix is written as a root (nothing,
    one slash or two) and components that are each followed by one
    slash. *)
Theorem record_path_joined (guess_type : str -> option str)
    (root : option node) (remote_prefix : str) :
  root_names_ok root = true ->
  all_readable root = true ->
  exists files,
    mCall_CollectFiles guess_type root remote_prefix = Ok files /\
    Forall2
      (fun f r =>
         path r = normal_prefix remote_prefix ++ join_slash (fst f)
         /\ (path r = remote_prefix ++ join_slash (fst f)
             <-> exists rt comps,
                   is_root rt = true
                   /\ forallb is_component comps = true
                   /\ remote_prefix = prefix_of rt comps))
      (regular_files root) files.
Proof.
  intros Hnames Hread. eexists. split; [apply collect_all, Hread|].
  apply Forall2_map_r. intros [rel raw] Hin.
  rewrite path_record_for. cbn [fst].
  destruct (regular_files_names root Hnames rel raw Hin) as [Hne Hall].
  rewrite (remote_path_normal _ _ Hne Hall).
  split; [reflexivity|].
  rewrite <- normal_prefix_fixed. split.
  - apply app_inv_tail.
  - intros ->. reflexivity.
Qed.

Lemma record_path_joined_witness :
  root_names_ok (Some scenario_root) = true /\
  all_readable (Some scenario_root) = true /\
  exists files,
    mCall_CollectFiles scenario_guess (Some scenario_root) (lit "alice/")
    = Ok files /\
    Forall2
      (fun f r =>
         path r = normal_prefix (lit "alice/") ++ join_slash (fst f)
         /\ (path r = lit "alice/" ++ join_slash (fst f)
             <-> exists rt comps,
                   is_root rt = true
                   /\ forallb is_component comps = true
                   /\ lit "alice/" = prefix_of rt comps))
      (regular_files (Some scenario_root)) files.
Proof.
  split; [reflexivity|]. split; [reflexivity|].
  apply (record_path_joined scenario_guess (Some scenario_root)
           (lit "alice/")); reflexivity.
Defined.

(** C3 as the specification words it fails: with the prefix [alice], which
    has no final slash, the record of [a.txt] is at [alice/a.txt] and not
    at [alicea.txt]. *)
Lemma record_path_not_concatenation :
  mCall_CollectFiles scenario_guess (Some scenario_root) (lit "alice")
  = Ok [mkRecord (lit "alice/a.txt") (lit "hello") None;
        mkRecord (lit "alice/b.png") (lit "/9j/") (Some (lit "base64"))]
  /\ regular_files (Some scenario_root)
     = [([lit "a.txt"], list_byte_of_string "hello");
        ([lit "b.png"], [xff; xd8; xff])]
  /\ lit "alice/a.txt" <> lit "alice" ++ join_slash [lit "a.txt"].
Proof.
  split; [vm_compute; reflexivity|].
  split; [vm_compute; reflexivity|].
  vm_compute. discriminate.
Qed.

(** ** The workflow *)

Lemma getitem_name (tools : list Tool) (key : str) (t : Tool) :
  getitem tools key = Some t -> tool_name t = key.
Proof.
  unfold getitem. intros H. apply find_some in H as [_ H].
  apply str_eqb_eq, H.
Qed.

Section WorkflowFacts.

Variable w : World.
Variables my_dir_name dir_name branch_name pr_title pr_body git_token : str.

Let run : list event * result unit :=
  rCall_PushAndPR w my_dir_name dir_name branch_name pr_title pr_body
    git_token.

(** Every call of the workflow goes one of the ways of [workflow_run]. *)
Lemma run_shape :
  workflow_run w my_dir_name dir_name branch_name pr_title pr_body
    git_token run.
Proof.
  unfold run, rCall_PushAndPR, rCall_PushAndPR_body.
  unfold bind at 1. unfold lift.
  destruct (mCall_CollectFiles _ _ _) as [files|e] eqn:Hc;
    [|apply run_collect_raises; exact Hc].
  unfold async_with.
  destruct (aenter (service w) git_token) as [e|] eqn:Ha;
    [apply (run_connect_raises _ _ _ _ _ _ _ files); assumption|].
  cbn [app].
  set (tools := get_tools (service w)).
  unfold tool_lookup, bind, ret, raise.
  destruct (getitem tools (lit "create_branch")) as [cb|] eqn:Hcb.
  2:{ apply (run_session _ _ _ _ _ _ _ files []); try assumption.
      apply body_no_tool. cbn. auto. }
  destruct (getitem tools (lit "push_files")) as [pf|] eqn:Hpf.
  2:{ apply (run_session _ _ _ _ _ _ _ files []); try assumption.
      apply body_no_tool. cbn. auto. }
  destruct (getitem tools (lit "create_pull_request")) as [pr|] eqn:Hpr.
  2:{ apply (run_session _ _ _ _ _ _ _ files []); try assumption.
      apply body_no_tool. cbn. auto. }
  apply getitem_name in Hcb, Hpf, Hpr.
  unfold try_except, ainvoke, print. rewrite Hcb, Hpf, Hpr.
  cbn [app].
  destruct (respond cb _ _) as [[cls msg|cls]|] eqn:Hb; cbn [app].
  - (* the call raised an Exception: the handler prints *)
    match goal with
    | |- context [stdout w ?h (msg_branch_continue branch_name)] =>
        destruct (stdout w h (msg_branch_continue branch_name)) as [e|]
    end; cbn [app].
    + apply (run_session _ _ _ _ _ _ _ files [_; _]); try assumption.
      apply body_branch_stops, stops_handler.
    + finish_run w pf pr files
        [branch_event branch_name (Some (Error cls msg));
         Print (msg_branch_continue branch_name) None]
        (branch_continued branch_name cls msg).
  - (* the call raised outside Exception *)
    apply (run_session _ _ _ _ _ _ _ files [_]); try assumption.
    apply body_branch_stops, stops_call_signal.
  - (* the call returned: its message is printed inside the try block *)
    match goal with
    | |- context [stdout w ?h (msg_branch_created branch_name)] =>
        destruct (stdout w h (msg_branch_created branch_name))
          as [[cls msg|cls]|]
    end; cbn [app].
    + match goal with
      | |- context [stdout w ?h (msg_branch_continue branch_name)] =>
          destruct (stdout w h (msg_branch_continue branch_name)) as [e|]
      end; cbn [app].
      * apply (run_session _ _ _ _ _ _ _ files [_; _; _]);
          try assumption.
        apply body_branch_stops, stops_handler_after_print.
      * finish_run w pf pr files
          [branch_event branch_name None;
           Print (msg_branch_created branch_name) (Some (Error cls msg));
           Print (msg_branch_continue branch_name) None]
          (branch_print_caught branch_name cls msg).
    + apply (run_session _ _ _ _ _ _ _ files [_; _]); try assumption.
      apply body_branch_stops, stops_print_signal.
    + finish_run w pf pr files
        [branch_event branch_name None;
         Print (msg_branch_created branch_name) None]
        (branch_created branch_name).
Qed.

Lemma body_invocation (files : list FileRecord) (tr : list event)
    (res : result unit) (tool : str) (a : args) (o : option raised) :
  body_run files branch_name pr_title pr_body tr res ->
  In (Invoke tool a o) tr ->
  (tool = lit "create_branch" /\ a = create_branch_args branch_name)
  \/ (tool = lit "push_files"
       /\ a = push_files_args branch_name files pr_title)
  \/ (tool = lit "create_pull_request"
       /\ a = create_pull_request_args pr_title pr_body branch_name).
Proof.
  intros Hb Hin.
  body_cases Hb;
    unfold branch_events, branch_event, push_event, pr_event in Hin;
    cbn [app In] in Hin;
    repeat (destruct Hin as [Hin|Hin];
            [try discriminate Hin; injection Hin as <- <- _; auto|]);
    contradiction.
Qed.

Lemma run_invocation (tool : str) (a : args) (o : option raised) :
  In (Invoke tool a o) (fst run) ->
  exists files tr res,
    mCall_CollectFiles (mime_db w) (local_fs w dir_name) my_dir_name
    = Ok files /\
    body_run files branch_name pr_title pr_body tr res /\
    run = (Connect git_token None :: tr ++ [Release], res) /\
    In (Invoke tool a o) tr.
Proof.
  intros Hin. pose proof run_shape as R.
  inversion R as [e Hc Hr|files e Hc Ha Hr|files tr res Hc Ha Hb Hr];
    rewrite <- Hr in Hin; cbn [fst In] in Hin.
  - contradiction.
  - destruct Hin as [Hin|[]]. discriminate Hin.
  - destruct Hin as [Hin|Hin]; [discriminate Hin|].
    apply in_app_or in Hin as [Hin|[Hin|[]]]; [|discriminate Hin].
    exists files, tr, res. auto.
Qed.

End WorkflowFacts.

Section WorkflowClaims.

Variable w : World.
Variables my_dir_name dir_name branch_name pr_title pr_body git_token : str.

Let run : list event * result unit :=
  rCall_PushAndPR w my_dir_name dir_name branch_name pr_title pr_body
    git_token.

Let collected : result (list FileRecord) :=
  mCall_CollectFiles (mime_db w) (local_fs w dir_name) my_dir_name.

(** C4, as the code has it.  When the call of [create_branch] raises an
    [Exception], the workflow catches it and prints the continuation
    message.  When that print returns, the next step is the call of
    [push_files] on the list the collector returned; when it raises, the
    workflow raises that exception and only releases the session. *)
Theorem branch_error_swallowed (a : args) (cls : string) (msg : str) :
  In (Invoke (lit "create_branch") a (Some (Error cls msg))) (fst run) ->
  exists files po rest,
    collected = Ok files /\
    fst run
    = Connect git_token None
      :: Invoke (lit "create_branch") (create_branch_args branch_name)
           (Some (Error cls msg))
      :: Print (msg_branch_continue branch_name) po
      :: rest /\
    match po with
    | None =>
        exists o rest',
          rest = Invoke (lit "push_files")
                   (push_files_args branch_name files pr_title) o
                 :: rest'
    | Some e => rest = [Release] /\ snd run = Raise e
    end.
Proof.
  intros Hin.
  destruct (run_invocation w my_dir_name dir_name branch_name pr_title
              pr_body git_token _ _ _ Hin)
    as (files & tr & res & Hc & Hb & Hr & Hin').
  fold run in Hr. rewrite Hr. cbn [fst snd].
  exists files.
  body_cases Hb; split_in Hin';
    injection Hin' as _ -> ->;
    unfold branch_event, push_event, pr_event; cbn [app];
    eexists; eexists;
    (split; [exact Hc|]); (split; [reflexivity|]); cbn;
    first [ split; reflexivity | eexists; eexists; reflexivity ].
Qed.

(** C5.  When the call of [push_files] raises, the workflow raises the
    same exception, [create_pull_request] is not called, and [push_files]
    was called once. *)
Theorem push_error_propagates (a : args) (e : raised) :
  In (Invoke (lit "push_files") a (Some e)) (fst run) ->
  snd run = Raise e
  /\ invocations (lit "create_pull_request") (fst run) = []
  /\ invocations (lit "push_files") (fst run) = [(a, Some e)].
Proof.
  intros Hin.
  destruct (run_invocation w my_dir_name dir_name branch_name pr_title
              pr_body git_token _ _ _ Hin)
    as (files & tr & res & Hc & Hb & Hr & Hin').
  fold run in Hr. rewrite Hr. cbn [fst snd].
  body_cases Hb; split_in Hin';
    injection Hin' as <- <-;
    repeat split; vm_compute; reflexivity.
Qed.

(** C6.  Every remote call of every run names the owner
    [SGCS-Release-Git-Project] and the repository [release-collect-game],
    whatever the six arguments of the workflow are; the branch is created
    from [main] and the pull request has the base [main]. *)
Theorem fixed_repository (tool : str) (a : args) (o : option raised) :
  In (Invoke tool a o) (fst run) ->
  In tool [lit "create_branch"; lit "push_files";
           lit "create_pull_request"]
  /\ lookup (lit "owner") a = Some (VStr (lit "SGCS-Release-Git-Project"))
  /\ lookup (lit "repo") a = Some (VStr (lit "release-collect-game"))
  /\ (tool = lit "create_branch" ->
      lookup (lit "from_branch") a = Some (VStr (lit "main")))
  /\ (tool = lit "create_pull_request" ->
      lookup (lit "base") a = Some (VStr (lit "main"))).
Proof.
  intros Hin.
  destruct (run_invocation w my_dir_name dir_name branch_name pr_title
              pr_body git_token _ _ _ Hin)
    as (files & tr & res & _ & Hb & _ & Hin').
  destruct (body_invocation _ _ _ _ _ _ _ _ _ Hb Hin')
    as [[-> ->]|[[-> ->]|[-> ->]]];
    (split; [cbn; auto|]);
    (split; [vm_compute; reflexivity|]);
    (split; [vm_compute; reflexivity|]);
    split; intros Hn;
    first [ vm_compute; reflexivity
          | exfalso; vm_compute in Hn; discriminate Hn ].
Qed.

(** C8.  A collector that raises ends the workflow with that exception and
    with an empty log: no session, no remote call.  Any log that is not
    empty starts with the session entry, after the collector has
    returned, and a call of [push_files] carries the list it returned. *)
Theorem collection_before_session :
  (forall e, collected = Raise e -> run = ([], Raise e))
  /\ (fst run <> [] ->
      exists files o rest,
        collected = Ok files /\ fst run = Connect git_token o :: rest)
  /\ (forall a o,
        In (Invoke (lit "push_files") a o) (fst run) ->
        exists files,
          collected = Ok files
          /\ lookup (lit "files") a = Some (VFiles files)).
Proof.
  pose proof (run_shape w my_dir_name dir_name branch_name pr_title
                pr_body git_token) as R.
  fold run in R. fold collected in R.
  split; [|split].
  - intros e He.
    inversion R as [e' Hc Hr|files e' Hc Ha Hr|files tr res Hc Ha Hb Hr];
      fold collected in Hc; rewrite He in Hc; try discriminate Hc.
    injection Hc as ->. reflexivity.
  - intros Hne.
    inversion R as [e' Hc Hr|files e' Hc Ha Hr|files tr res Hc Ha Hb Hr];
      fold collected in Hc; rewrite <- Hr in Hne; cbn [fst] in *.
    + contradiction.
    + exists files, (Some e'), []. auto.
    + exists files, None, (tr ++ [Release]). auto.
  - intros a o Hin.
    destruct (run_invocation w my_dir_name dir_name branch_name pr_title
                pr_body git_token _ _ _ Hin)
      as (files & tr & res & Hc & Hb & _ & Hin').
    exists files. split; [exact Hc|].
    destruct (body_invocation _ _ _ _ _ _ _ _ _ Hb Hin')
      as [[Hn _]|[[_ ->]|[Hn _]]];
      [exfalso; vm_compute in Hn; discriminate Hn
      |vm_compute; reflexivity
      |exfalso; vm_compute in Hn; discriminate Hn].
Qed.

(** C9.  A session that was acquired is the first event of the log and
    its release is the last one; whatever happened in between, whichever
    step raised, no other entry or release is among it.  There is no
    release and no remote call without an acquired session. *)
Theorem session_released :
  (In (Connect git_token None) (fst run) ->
   exists mid,
     fst run = Connect git_token None :: mid ++ [Release]
     /\ forallb (fun ev => negb (is_session_event ev)) mid = true)
  /\ (In Release (fst run) -> In (Connect git_token None) (fst run))
  /\ (forall tool a o,
        In (Invoke tool a o) (fst run) ->
        In (Connect git_token None) (fst run)).
Proof.
  assert (Hcall : forall tool a o,
             In (Invoke tool a o) (fst run) ->
             In (Connect git_token None) (fst run)).
  { intros tool a o Hin.
    destruct (run_invocation w my_dir_name dir_name branch_name pr_title
                pr_body git_token _ _ _ Hin)
      as (files & tr & res & _ & _ & Hr & _).
    fold run in Hr. rewrite Hr. left. reflexivity. }
  apply and_assoc. split; [|exact Hcall]. clear Hcall.
  pose proof (run_shape w my_dir_name dir_name branch_name pr_title
                pr_body git_token) as R.
  fold run in R.
  inversion R as [e' Hc Hr|files e' Hc Ha Hr|files tr res Hc Ha Hb Hr];
    cbn [fst]; split; intros Hin; cbn [In] in Hin.
  - contradiction.
  - contradiction.
  - destruct Hin as [Hin|[]]. discriminate Hin.
  - destruct Hin as [Hin|[]]. discriminate Hin.
  - exists tr. split; [reflexivity|].
    body_cases Hb; vm_compute; reflexivity.
  - left. reflexivity.
Qed.

End WorkflowClaims.

(** ** The workflow on the scenario *)

Example scenario_all_succeed :
  rCall_PushAndPR (scenario_world None None None)
    (lit "alice/") (lit "week1") (lit "feat/alice-week1")
    (lit "Week 1") (lit "Report") (lit "token")
  = ([Connect (lit "token") None]
     ++ branch_events (lit "feat/alice-week1") None
     ++ [push_event (lit "feat/alice-week1")
           [mkRecord (lit "alice/a.txt") (lit "hello") None;
            mkRecord (lit "alice/b.png") (lit "/9j/")
              (Some (lit "base64"))]
           (lit "Week 1") None;
         pr_event (lit "Week 1") (lit "Report") (lit "feat/alice-week1")
           None;
         Print msg_pr_done None;
         Release],
     Ok tt).
Proof. vm_compute. reflexivity. Qed.

(** On a console that cannot encode the messages, the print in the [try]
    block raises, the handler catches it, and its own print raises: the
    branch is created and nothing is pushed. *)
Example scenario_ascii_console :
  rCall_PushAndPR (scenario_world_on ascii_console None None None)
    (lit "alice/") (lit "week1") (lit "feat/alice-week1")
    (lit "Week 1") (lit "Report") (lit "token")
  = ([Connect (lit "token") None;
      branch_event (lit "feat/alice-week1") None;
      Print (msg_branch_created (lit "feat/alice-week1"))
        (Some (Error "UnicodeEncodeError" []));
      Print (msg_branch_continue (lit "feat/alice-week1"))
        (Some (Error "UnicodeEncodeError" []));
      Release],
     Raise (Error "UnicodeEncodeError" [])).
Proof. vm_compute. reflexivity. Qed.

(** C4 as the specification words it fails.  An exception of
    [create_branch] outside [Exception] is not caught: the workflow raises
    it and pushes nothing.  And when the call raises an [Exception] and
    the console cannot take the continuation message, the print in the
    handler raises and nothing is pushed either. *)
Lemma branch_failure_can_abort :
  rCall_PushAndPR
    (scenario_world (Some (Signal "CancelledError")) None None)
    (lit "alice/") (lit "week1") (lit "feat/alice-week1")
    (lit "Week 1") (lit "Report") (lit "token")
  = ([Connect (lit "token") None;
      Invoke (lit "create_branch")
        (create_branch_args (lit "feat/alice-week1"))
        (Some (Signal "CancelledError"));
      Release],
     Raise (Signal "CancelledError"))
  /\ rCall_PushAndPR
       (scenario_world_on ascii_console
          (Some (Error "ToolException" (lit "Reference already exists")))
          None None)
       (lit "alice/") (lit "week1") (lit "feat/alice-week1")
       (lit "Week 1") (lit "Report") (lit "token")
     = ([Connect (lit "token") None;
         Invoke (lit "create_branch")
           (create_branch_args (lit "feat/alice-week1"))
           (Some (Error "ToolException" (lit "Reference already exists")));
         Print (msg_branch_continue (lit "feat/alice-week1"))
           (Some (Error "UnicodeEncodeError" []));
         Release],
        Raise (Error "UnicodeEncodeError" [])).
Proof.
  split; vm_compute; reflexivity.
Qed.

Lemma branch_error_swallowed_witness :
  In (Invoke (lit "create_branch")
        (create_branch_args (lit "feat/alice-week1"))
        (Some (Error "ToolException" (lit "Reference already exists"))))
     (fst (scenario_run
             (scenario_world
                (Some (Error "ToolException"
                         (lit "Reference already exists")))
                None None)))
  /\ exists files po rest,
       mCall_CollectFiles scenario_guess (Some scenario_root)
         (lit "alice/") = Ok files /\
       fst (scenario_run
              (scenario_world
                 (Some (Error "ToolException"
                          (lit "Reference already exists")))
                 None None))
       = Connect (lit "token") None
         :: Invoke (lit "create_branch")
              (create_branch_args (lit "feat/alice-week1"))
              (Some (Error "ToolException"
                       (lit "Reference already exists")))
         :: Print (msg_branch_continue (lit "feat/alice-week1")) po
         :: rest /\
       match po with
       | None =>
           exists o rest',
             rest = Invoke (lit "push_files")
                      (push_files_args (lit "feat/alice-week1") files
                         (lit "Week 1")) o
                    :: rest'
       | Some e =>
           rest = [Release]
           /\ snd (scenario_run
                     (scenario_world
                        (Some (Error "ToolException"
                                 (lit "Reference already exists")))
                        None None))
              = Raise e
       end.
Proof.
  assert (H : In (Invoke (lit "create_branch")
                    (create_branch_args (lit "feat/alice-week1"))
                    (Some (Error "ToolException"
                             (lit "Reference already exists"))))
                (fst (scenario_run
                        (scenario_world
                           (Some (Error "ToolException"
                                    (lit "Reference already exists")))
                           None None)))).
  { vm_compute. right. left. reflexivity. }
  split; [exact H|].
  exact (branch_error_swallowed _ _ _ _ _ _ _ _ _ _ H).
Defined.

Lemma push_error_propagates_witness :
  In (Invoke (lit "push_files")
        (push_files_args (lit "feat/alice-week1")
           [mkRecord (lit "alice/a.txt") (lit "hello") None;
            mkRecord (lit "alice/b.png") (lit "/9j/")
              (Some (lit "base64"))]
           (lit "Week 1"))
        (Some (Error "ToolException" (lit "push rejected"))))
     (fst (rCall_PushAndPR
             (scenario_world None
                (Some (Error "ToolException" (lit "push rejected")))
                None)
             (lit "alice/") (lit "week1") (lit "feat/alice-week1")
             (lit "Week 1") (lit "Report") (lit "token")))
  /\ snd (rCall_PushAndPR
            (scenario_world None
               (Some (Error "ToolException" (lit "push rejected")))
               None)
            (lit "alice/") (lit "week1") (lit "feat/alice-week1")
            (lit "Week 1") (lit "Report") (lit "token"))
     = Raise (Error "ToolException" (lit "push rejected")).
Proof.
  assert (H : In (Invoke (lit "push_files")
                    (push_files_args (lit "feat/alice-week1")
                       [mkRecord (lit "alice/a.txt") (lit "hello") None;
                        mkRecord (lit "alice/b.png") (lit "/9j/")
                          (Some (lit "base64"))]
                       (lit "Week 1"))
                    (Some (Error "ToolException" (lit "push rejected"))))
                (fst (rCall_PushAndPR
                        (scenario_world None
                           (Some (Error "ToolException"
                                    (lit "push rejected")))
                           None)
                        (lit "alice/") (lit "week1")
                        (lit "feat/alice-week1")
                        (lit "Week 1") (lit "Report") (lit "token")))).
  { vm_compute. right. right. right. left. reflexivity. }
  split; [exact H|].
  exact (proj1 (push_error_propagates _ _ _ _ _ _ _ _ _ H)).
Defined.

Lemma fixed_repository_witness :
  In (Invoke (lit "create_pull_request")
        (create_pull_request_args (lit "Week 1") (lit "Report")
           (lit "feat/alice-week1"))
        None)
     (fst (rCall_PushAndPR (scenario_world None None None)
             (lit "alice/") (lit "week1") (lit "feat/alice-week1")
             (lit "Week 1") (lit "Report") (lit "token")))
  /\ lookup (lit "owner")
       (create_pull_request_args (lit "Week 1") (lit "Report")
          (lit "feat/alice-week1"))
     = Some (VStr (lit "SGCS-Release-Git-Project")).
Proof.
  assert (H : In (Invoke (lit "create_pull_request")
                    (create_pull_request_args (lit "Week 1") (lit "Report")
                       (lit "feat/alice-week1"))
                    None)
                (fst (rCall_PushAndPR (scenario_world None None None)
                        (lit "alice/") (lit "week1")
                        (lit "feat/alice-week1")
                        (lit "Week 1") (lit "Report") (lit "token")))).
  { vm_compute. do 4 right. left. reflexivity. }
  split; [exact H|].
  exact (proj1 (proj2 (fixed_repository _ _ _ _ _ _ _ _ _ _ H))).
Defined.

Lemma collection_before_session_witness :
  mCall_CollectFiles (mime_db locked_world)
    (local_fs locked_world (lit "week1")) (lit "alice/")
  = Raise (Error "PermissionError" [])
  /\ rCall_PushAndPR locked_world
       (lit "alice/") (lit "week1") (lit "feat/alice-week1")
       (lit "Week 1") (lit "Report") (lit "token")
     = ([], Raise (Error "PermissionError" [])).
Proof.
  assert (H : mCall_CollectFiles (mime_db locked_world)
                (local_fs locked_world (lit "week1")) (lit "alice/")
              = Raise (Error "PermissionError" [])).
  { reflexivity. }
  split; [exact H|].
  exact (proj1 (collection_before_session locked_world
                  (lit "alice/") (lit "week1") (lit "feat/alice-week1")
                  (lit "Week 1") (lit "Report") (lit "token")) _ H).
Defined.

Lemma session_released_witness :
  In (Connect (lit "token") None)
     (fst (rCall_PushAndPR
             (scenario_world None
                (Some (Error "ToolException" (lit "push rejected")))
                None)
             (lit "alice/") (lit "week1") (lit "feat/alice-week1")
             (lit "Week 1") (lit "Report") (lit "token")))
  /\ exists mid,
       fst (rCall_PushAndPR
              (scenario_world None
                 (Some (Error "ToolException" (lit "push rejected")))
                 None)
              (lit "alice/") (lit "week1") (lit "feat/alice-week1")
              (lit "Week 1") (lit "Report") (lit "token"))
       = Connect (lit "token") None :: mid ++ [Release]
       /\ forallb (fun ev => negb (is_session_event ev)) mid = true.
Proof.
  assert (H : In (Connect (lit "token") None)
                (fst (rCall_PushAndPR
                        (scenario_world None
                           (Some (Error "ToolException"
                                    (lit "push rejected")))
                           None)
                        (lit "alice/") (lit "week1")
                        (lit "feat/alice-week1")
                        (lit "Week 1") (lit "Report") (lit "token")))).
  { vm_compute. left. reflexivity. }
  split; [exact H|].
  exact (proj1 (session_released _ _ _ _ _ _ _) H).
Defined.

(** * Further properties of the workflow *)

Section WorkflowMore.

Variable w : World.
Variables my_dir_name dir_name branch_name pr_title pr_body git_token : str.

Let run : list event * result unit :=
  rCall_PushAndPR w my_dir_name dir_name branch_name pr_title pr_body
    git_token.

Let collected : result (list FileRecord) :=
  mCall_CollectFiles (mime_db w) (local_fs w dir_name) my_dir_name.

Let shape :=
  run_shape w my_dir_name dir_name branch_name pr_title pr_body git_token.

(** X1.  The workflow returns normally exactly when the completion
    message was printed, and then [create_pull_request] has returned
    normally.  Once [create_pull_request] has returned, the workflow
    returns normally unless the print of the completion message
    raises. *)
Theorem success_iff_pr_returned :
  (snd run = Ok tt <-> In (Print msg_pr_done None) (fst run))
  /\ (snd run = Ok tt ->
      In (pr_event pr_title pr_body branch_name None) (fst run))
  /\ (In (pr_event pr_title pr_body branch_name None) (fst run) ->
      snd run = Ok tt
      \/ exists e,
           snd run = Raise e /\ In (Print msg_pr_done (Some e)) (fst run)).
Proof.
  pose proof shape as R. fold run in R.
  inversion R as [e Hc Hr|files e Hc Ha Hr|files tr res Hc Ha Hb Hr];
    cbn [fst snd].
  - (split; [split|split]); intros Hx; try discriminate Hx; destruct Hx.
  - (split; [split|split]); intros Hx; try discriminate Hx;
      destruct Hx as [Hx|[]]; discriminate Hx.
  - body_cases Hb;
      unfold branch_events, branch_event, push_event, pr_event;
      cbn [app];
      (split; [split|split]); intros Hx;
      first
        [ discriminate Hx
        | reflexivity
        | solve [split_in Hx]
        | solve [cbn [In]; repeat (first [left; reflexivity|right])]
        | solve [left; reflexivity]
        | right; eexists; split; [reflexivity|];
          cbn [In]; repeat (first [left; reflexivity|right]) ].
Qed.

(** X2.  When [create_pull_request] raises, the workflow raises the same
    exception after the branch step has let the workflow go on and
    [push_files] has returned normally with the collected files; nothing
    is called afterwards and the session is released. *)
Theorem pr_error_after_push (a : args) (e : raised) :
  In (Invoke (lit "create_pull_request") a (Some e)) (fst run) ->
  snd run = Raise e
  /\ exists files tr,
       collected = Ok files
       /\ branch_done branch_name tr
       /\ fst run
          = Connect git_token None
            :: tr
            ++ [push_event branch_name files pr_title None;
                pr_event pr_title pr_body branch_name (Some e);
                Release].
Proof.
  intros Hin.
  destruct (run_invocation w my_dir_name dir_name branch_name pr_title
              pr_body git_token _ _ _ Hin)
    as (files & tr & res & Hc & Hb & Hr & Hin').
  fold run in Hr. rewrite Hr. cbn [fst snd].
  destruct Hb as [key Hk|tr0 e0 Hs|tr0 e0 Hd|tr0 e0 Hd|tr0 e0 Hd|tr0 Hd].
  - contradiction.
  - destruct Hs; split_in Hin'.
  - exfalso. destruct Hd; split_in Hin'.
  - assert (E : e0 = e) by (destruct Hd; split_in Hin'; congruence).
    subst e0. split; [reflexivity|]. exists files, tr0.
    split; [exact Hc|]. split; [exact Hd|].
    rewrite <- app_assoc. reflexivity.
  - exfalso. destruct Hd; split_in Hin'.
  - exfalso. destruct Hd; split_in Hin'.
Qed.

(** X3.  An exception of [create_branch] that is not an [Exception] is not
    caught: the workflow raises it, [push_files] and [create_pull_request]
    are not called, and the session is released. *)
Theorem branch_signal_propagates (a : args) (cls : string) :
  In (Invoke (lit "create_branch") a (Some (Signal cls))) (fst run) ->
  run
  = ([Connect git_token None;
      Invoke (lit "create_branch") (create_branch_args branch_name)
        (Some (Signal cls));
      Release],
     Raise (Signal cls)).
Proof.
  intros Hin.
  destruct (run_invocation w my_dir_name dir_name branch_name pr_title
              pr_body git_token _ _ _ Hin)
    as (files & tr & res & Hc & Hb & Hr & Hin').
  fold run in Hr. rewrite Hr.
  body_cases Hb; split_in Hin'.
  injection Hin' as _ <-. reflexivity.
Qed.

(** X4.  The remote calls of a run are an initial part of
    [create_branch], [push_files], [create_pull_request]: each tool is
    called at most once, in that order, and none is skipped. *)
Theorem calls_in_order :
  exists rest,
    tool_names (fst run) ++ rest
    = [lit "create_branch"; lit "push_files"; lit "create_pull_request"].
Proof.
  pose proof shape as R. fold run in R.
  inversion R as [e Hc Hr|files e Hc Ha Hr|files tr res Hc Ha Hb Hr];
    cbn [fst].
  - eexists. reflexivity.
  - eexists. reflexivity.
  - body_cases Hb;
      unfold branch_event, push_event, pr_event;
      cbn [app tool_names]; eexists; reflexivity.
Qed.

(** X5.  The calls of a run agree with each other: the branch that is
    created is the branch pushed to and the head of the pull request, and
    the commit message is the title of the pull request. *)
Theorem calls_agree (tool : str) (a : args) (o : option raised) :
  In (Invoke tool a o) (fst run) ->
  (tool = lit "create_branch" ->
   lookup (lit "branch") a = Some (VStr branch_name))
  /\ (tool = lit "push_files" ->
      lookup (lit "branch") a = Some (VStr branch_name)
      /\ lookup (lit "message") a = Some (VStr pr_title))
  /\ (tool = lit "create_pull_request" ->
      lookup (lit "head") a = Some (VStr branch_name)
      /\ lookup (lit "title") a = Some (VStr pr_title)
      /\ lookup (lit "body") a = Some (VStr pr_body)).
Proof.
  intros Hin.
  destruct (run_invocation w my_dir_name dir_name branch_name pr_title
              pr_body git_token _ _ _ Hin)
    as (files & tr & res & _ & Hb & _ & Hin').
  destruct (body_invocation _ _ _ _ _ _ _ _ _ Hb Hin')
    as [[-> ->]|[[-> ->]|[-> ->]]];
    (split; [|split]); intros Hn;
    first [ exfalso; vm_compute in Hn; discriminate Hn
          | repeat split; vm_compute; reflexivity ].
Qed.

Let tools : list Tool := get_tools (service w).

(** X6.  When the files are collected, the session comes up, the three
    tools are in the catalog, the console takes every message,
    [create_branch] returns or raises an [Exception], and [push_files]
    and [create_pull_request] return, the workflow returns normally; its
    log is the session entry, the branch step, the push, the pull
    request, the completion message and the release. *)
Theorem all_steps_succeed (files : list FileRecord) (cb pf pr : Tool) :
  collected = Ok files ->
  aenter (service w) git_token = None ->
  getitem tools (lit "create_branch") = Some cb ->
  getitem tools (lit "push_files") = Some pf ->
  getitem tools (lit "create_pull_request") = Some pr ->
  (forall h msg, stdout w h msg = None) ->
  goes_on (respond cb [Connect git_token None]
             (create_branch_args branch_name)) = true ->
  (forall h, respond pf h (push_files_args branch_name files pr_title)
             = None) ->
  (forall h, respond pr h
               (create_pull_request_args pr_title pr_body branch_name)
             = None) ->
  run
  = (Connect git_token None
     :: branch_events branch_name
          (respond cb [Connect git_token None]
             (create_branch_args branch_name))
     ++ [push_event branch_name files pr_title None;
         pr_event pr_title pr_body branch_name None;
         Print msg_pr_done None;
         Release],
     Ok tt).
Proof.
  intros Hc Ha Hcb Hpf Hpr Hquiet Hgo Hpush Hpull.
  unfold run, rCall_PushAndPR, rCall_PushAndPR_body.
  unfold bind at 1. unfold lift. fold collected. rewrite Hc.
  unfold async_with. rewrite Ha. fold tools.
  unfold tool_lookup, bind, ret, raise. rewrite Hcb, Hpf, Hpr.
  apply getitem_name in Hcb, Hpf, Hpr.
  unfold try_except, ainvoke, print, branch_events, branch_event,
    push_event, pr_event.
  rewrite Hcb, Hpf, Hpr. cbn [app].
  destruct (respond cb _ _) as [[cls msg|cls]|];
    [|discriminate Hgo|];
    repeat (cbn [app];
            first [rewrite Hquiet | rewrite Hpush | rewrite Hpull]);
    reflexivity.
Qed.

(** X7.  When one of the three tools is missing from the catalog, the
    workflow raises [KeyError] for a missing name before any tool is
    called, also when the missing tool is the last one needed; the session
    is released. *)
Theorem missing_tool_no_call (files : list FileRecord) :
  collected = Ok files ->
  aenter (service w) git_token = None ->
  getitem tools (lit "create_branch") = None
  \/ getitem tools (lit "push_files") = None
  \/ getitem tools (lit "create_pull_request") = None ->
  fst run = [Connect git_token None; Release]
  /\ exists key,
       snd run = Raise (Error "KeyError" key)
       /\ getitem tools key = None.
Proof.
  intros Hc Ha Hmiss.
  unfold run, rCall_PushAndPR, rCall_PushAndPR_body.
  unfold bind at 1. unfold lift. fold collected. rewrite Hc.
  unfold async_with. rewrite Ha. fold tools.
  unfold tool_lookup, bind, ret, raise. cbn [app].
  destruct (getitem tools (lit "create_branch")) as [cb|] eqn:Hcb.
  2:{ cbn. split; [reflexivity|]. eexists. split; [reflexivity|exact Hcb]. }
  destruct (getitem tools (lit "push_files")) as [pf|] eqn:Hpf.
  2:{ cbn. split; [reflexivity|]. eexists. split; [reflexivity|exact Hpf]. }
  destruct (getitem tools (lit "create_pull_request")) as [pr|] eqn:Hpr.
  2:{ cbn. split; [reflexivity|]. eexists. split; [reflexivity|exact Hpr]. }
  destruct Hmiss as [H|[H|H]]; discriminate H.
Qed.

(** X8.  A local path on which [is_dir()] is false, because nothing is
    there or because what is there is not a directory, is no error of the
    workflow: the collector returns the empty list, the session is
    entered, and a call of [push_files] carries no file. *)
Theorem missing_directory_pushes_nothing :
  local_fs w dir_name = None
  \/ (exists n, local_fs w dir_name = Some n /\ is_dir n = Ok false) ->
  collected = Ok []
  /\ (exists o rest, fst run = Connect git_token o :: rest)
  /\ (forall a o,
        In (Invoke (lit "push_files") a o) (fst run) ->
        a = push_files_args branch_name [] pr_title).
Proof.
  intros Hroot.
  assert (Hc : collected = Ok []).
  { unfold collected.
    destruct Hroot as [->|(n & -> & Hn)]; [reflexivity|].
    unfold mCall_CollectFiles, rglob. rewrite Hn. reflexivity. }
  split; [exact Hc|].
  pose proof shape as R. fold run in R. fold collected in R.
  split.
  - inversion R as [e Hc' Hr|files e Hc' Ha Hr|files tr res Hc' Ha Hb Hr];
      fold collected in Hc'; cbn [fst].
    + rewrite Hc in Hc'. discriminate Hc'.
    + eauto.
    + eauto.
  - intros a o Hin.
    destruct (run_invocation w my_dir_name dir_name branch_name pr_title
                pr_body git_token _ _ _ Hin)
      as (files & tr & res & Hc' & Hb & _ & Hin').
    fold collected in Hc'. rewrite Hc in Hc'. injection Hc' as <-.
    destruct (body_invocation _ _ _ _ _ _ _ _ _ Hb Hin')
      as [[Hn _]|[[_ ->]|[Hn _]]];
      [exfalso; vm_compute in Hn; discriminate Hn
      |reflexivity
      |exfalso; vm_compute in Hn; discriminate Hn].
Qed.

End WorkflowMore.

(** * Further properties of the collector *)

(** X9.  When nothing raises below the root, the collector returns and
    every regular file at any depth below the root directory has a
    record, at the remote path made from the names that lead to it. *)
Theorem nested_file_collected (guess_type : str -> option str)
    (root : node) (remote_prefix : str) :
  all_readable (Some root) = true ->
  exists files,
    mCall_CollectFiles guess_type (Some root) remote_prefix = Ok files
    /\ forall rel raw,
         reach root rel (File (Ok raw)) ->
         exists r, In r files /\ path r = remote_path remote_prefix rel.
Proof.
  intros Hread. eexists. split; [apply collect_all, Hread|].
  intros rel raw Hreach.
  exists (record_for guess_type remote_prefix (rel, raw)).
  split.
  - apply in_map, regular_files_in, rglob_reach, Hreach.
  - unfold record_for. cbn [fst snd].
    destruct (if is_text_mime (guess_type (name rel))
              then utf8_decode raw else None); reflexivity.
Qed.

Lemma regular_files_walked (root : option node) :
  all_readable root = true ->
  List.map fst (regular_files root) = walked_files (rglob root).
Proof.
  unfold all_readable, regular_files, walked_files.
  induction (rglob root) as [|it todo IH]; intros H; [reflexivity|].
  cbn [forallb] in H. apply andb_true_iff in H as [Hn H].
  cbn [flat_map]. rewrite map_app, (IH H). f_equal.
  destruct it as [[rel [[raw|e]| |es|e|e]]|e]; try reflexivity;
    discriminate Hn.
Qed.

(** X10.  When nothing raises below the root, the collector returns one
    record for each entry of the walk that is a regular file, in walk
    order, at its remote path; directories and other entries give no
    record. *)
Theorem one_record_per_file (guess_type : str -> option str)
    (root : option node) (remote_prefix : str) :
  all_readable root = true ->
  exists files,
    mCall_CollectFiles guess_type root remote_prefix = Ok files
    /\ List.map path files
       = List.map (remote_path remote_prefix) (walked_files (rglob root)).
Proof.
  intros Hread. eexists. split; [apply collect_all, Hread|].
  rewrite <- (regular_files_walked root Hread), !map_map.
  apply map_ext. intros f. unfold record_for.
  destruct (if is_text_mime (guess_type (name (fst f)))
            then utf8_decode (snd f) else None); reflexivity.
Qed.

(** X11.  The collector raises exactly when a step of the walk raises:
    the walk itself ([is_dir()] on the root, the listing of a
    directory), [is_file()] on an entry, or [read_bytes()] on a regular
    file.  It raises the exception of the first such step in walk order;
    no list is returned then. *)
Theorem collector_raises_first_unreadable (guess_type : str -> option str)
    (root : option node) (remote_prefix : str) (e : raised) :
  mCall_CollectFiles guess_type root remote_prefix = Raise e
  <-> exists pre it post,
        rglob root = pre ++ it :: post
        /\ forallb clean pre = true
        /\ step_error it = Some e.
Proof.
  unfold mCall_CollectFiles. split.
  - apply collect_loop_raise.
  - intros (pre & it & post & -> & Hpre & Hit).
    rewrite collect_loop_app, (collect_loop_clean _ _ pre [] Hpre).
    cbn [app collect_loop].
    rewrite (collect_step_error _ _ _ it e Hit). reflexivity.
Qed.

(** ** UTF-8 round trip *)

Lemma bytes_of_ords (bs : list byte) : bytes_of (List.map ord bs) = Some bs.
Proof.
  induction bs as [|b bs IH]; [reflexivity|].
  cbn [List.map bytes_of fold_right] in *. rewrite byte_of_ord.
  unfold bytes_of in IH. rewrite IH. reflexivity.
Qed.

Lemma div_mod_64 (q r : N) :
  r < 64 -> (q * 64 + r) / 64 = q /\ (q * 64 + r) mod 64 = r.
Proof.
  intros Hr. euclid (q * 64 + r) 64. lia.
Qed.

Lemma encode_cp_2 (c0 c1 : N) :
  192 <= c0 < 224 -> is_cont c1 = true ->
  128 <= (c0 - 192) * 64 + cont_bits c1 ->
  encode_cp ((c0 - 192) * 64 + cont_bits c1) = Some [c0; c1].
Proof.
  unfold is_cont, cont_bits. intros H0 H1 Hcp.
  apply andb_true_iff in H1 as [H1 H1'].
  apply N.leb_le in H1, H1'.
  destruct (div_mod_64 (c0 - 192) (c1 - 128)) as [Hq Hr]; [lia|].
  unfold encode_cp. rewrite Hq, Hr.
  replace ((c0 - 192) * 64 + (c1 - 128) <? 128) with false
    by (symmetry; apply N.ltb_ge; lia).
  replace ((c0 - 192) * 64 + (c1 - 128) <? 2048) with true
    by (symmetry; apply N.ltb_lt; lia).
  f_equal. f_equal; [lia|]. f_equal. lia.
Qed.

Lemma encode_cp_3 (c0 c1 c2 : N) :
  224 <= c0 < 240 -> is_cont c1 = true -> is_cont c2 = true ->
  forall cp,
    cp = (c0 - 224) * 4096 + cont_bits c1 * 64 + cont_bits c2 ->
    2048 <= cp -> is_surrogate cp = false ->
    encode_cp cp = Some [c0; c1; c2].
Proof.
  unfold is_cont, cont_bits. intros H0 H1 H2 cp Ecp Hcp Hs.
  apply andb_true_iff in H1 as [H1 H1'].
  apply andb_true_iff in H2 as [H2 H2'].
  apply N.leb_le in H1, H1', H2, H2'.
  assert (E : cp = ((c0 - 224) * 64 + (c1 - 128)) * 64 + (c2 - 128))
    by lia.
  clear Ecp.
  destruct (div_mod_64 ((c0 - 224) * 64 + (c1 - 128)) (c2 - 128))
    as [Hq Hr]; [lia|].
  destruct (div_mod_64 (c0 - 224) (c1 - 128)) as [Hq' Hr']; [lia|].
  rewrite <- E in Hq, Hr.
  unfold encode_cp. rewrite Hs.
  replace (cp / 4096) with (cp / 64 / 64)
    by (rewrite N.Div0.div_div; reflexivity).
  rewrite Hq, Hr, Hq', Hr'.
  replace (cp <? 128) with false by (symmetry; apply N.ltb_ge; lia).
  replace (cp <? 2048) with false by (symmetry; apply N.ltb_ge; lia).
  replace (cp <? 65536) with true by (symmetry; apply N.ltb_lt; lia).
  f_equal. f_equal; [lia|]. f_equal; [lia|]. f_equal. lia.
Qed.

Lemma encode_cp_4 (c0 c1 c2 c3 : N) :
  240 <= c0 < 248 ->
  is_cont c1 = true -> is_cont c2 = true -> is_cont c3 = true ->
  forall cp,
    cp = (c0 - 240) * 262144 + cont_bits c1 * 4096
         + cont_bits c2 * 64 + cont_bits c3 ->
    65536 <= cp -> cp <= 1114111 ->
    encode_cp cp = Some [c0; c1; c2; c3].
Proof.
  unfold is_cont, cont_bits. intros H0 H1 H2 H3 cp Ecp Hlo Hhi.
  apply andb_true_iff in H1 as [H1 H1'].
  apply andb_true_iff in H2 as [H2 H2'].
  apply andb_true_iff in H3 as [H3 H3'].
  apply N.leb_le in H1, H1', H2, H2', H3, H3'.
  assert (E : cp = (((c0 - 240) * 64 + (c1 - 128)) * 64 + (c2 - 128)) * 64
                   + (c3 - 128))
    by lia.
  clear Ecp.
  destruct (div_mod_64 (((c0 - 240) * 64 + (c1 - 128)) * 64 + (c2 - 128))
              (c3 - 128)) as [Hq Hr]; [lia|].
  destruct (div_mod_64 ((c0 - 240) * 64 + (c1 - 128)) (c2 - 128))
    as [Hq' Hr']; [lia|].
  destruct (div_mod_64 (c0 - 240) (c1 - 128)) as [Hq'' Hr'']; [lia|].
  rewrite <- E in Hq, Hr.
  unfold encode_cp.
  replace (cp / 262144) with (cp / 64 / 64 / 64)
    by (rewrite !N.Div0.div_div; reflexivity).
  replace (cp / 4096) with (cp / 64 / 64)
    by (rewrite N.Div0.div_div; reflexivity).
  rewrite Hq, Hr, Hq', Hr', Hq'', Hr''.
  replace (cp <? 128) with false by (symmetry; apply N.ltb_ge; lia).
  replace (cp <? 2048) with false by (symmetry; apply N.ltb_ge; lia).
  replace (cp <? 65536) with false by (symmetry; apply N.ltb_ge; lia).
  replace (cp <=? 1114111) with true by (symmetry; apply N.leb_le; lia).
  f_equal. f_equal; [lia|]. f_equal; [lia|]. f_equal; [lia|]. f_equal. lia.
Qed.

Lemma utf8_encode_cons (cp : N) (bs : list byte) (s : str)
    (t : list byte) :
  encode_cp cp = Some (List.map ord bs) ->
  utf8_encode s = Some t ->
  utf8_encode (cp :: s) = Some (bs ++ t).
Proof.
  intros Hcp Hs. cbn [utf8_encode].
  rewrite Hcp, bytes_of_ords, Hs. reflexivity.
Qed.

Lemma option_map_cons_inv (c : N) (o : option str) (s : str) :
  option_map (cons c) o = Some s ->
  exists s', o = Some s' /\ s = c :: s'.
Proof.
  destruct o as [s'|]; [|discriminate].
  cbn. intros H. injection H as <-. eauto.
Qed.

Lemma utf8_roundtrip_bounded (n : nat) :
  forall raw s,
    (List.length raw <= n)%nat ->
    utf8_decode raw = Some s ->
    utf8_encode s = Some raw.
Proof.
  induction n as [|n IH]; intros raw s Hlen Hdec.
  - destruct raw; [|cbn in Hlen; lia].
    cbn in Hdec. injection Hdec as <-. reflexivity.
  - destruct raw as [|b0 t0].
    { cbn in Hdec. injection Hdec as <-. reflexivity. }
    cbn [utf8_decode] in Hdec. cbv zeta in Hdec.
    cbn [List.length] in Hlen.
    destruct (ord b0 <? 128) eqn:H128.
    { apply option_map_cons_inv in Hdec as (s' & Hs' & ->).
      apply (utf8_encode_cons _ [b0]).
      - unfold encode_cp. rewrite H128. reflexivity.
      - apply IH; [lia|exact Hs']. }
    destruct (ord b0 <? 192) eqn:H192; [discriminate Hdec|].
    apply N.ltb_ge in H128, H192.
    destruct (ord b0 <? 224) eqn:H224.
    { apply N.ltb_lt in H224.
      destruct t0 as [|b1 t1]; [discriminate Hdec|].
      destruct (is_cont (ord b1) && _) eqn:Hc; [|discriminate Hdec].
      apply andb_true_iff in Hc as [Hc1 Hcp]. apply N.leb_le in Hcp.
      apply option_map_cons_inv in Hdec as (s' & Hs' & ->).
      apply (utf8_encode_cons _ [b0; b1]).
      - apply encode_cp_2; [lia|exact Hc1|exact Hcp].
      - apply IH; [cbn [List.length] in Hlen; lia|exact Hs']. }
    apply N.ltb_ge in H224.
    destruct (ord b0 <? 240) eqn:H240.
    { apply N.ltb_lt in H240.
      destruct t0 as [|b1 [|b2 t2]]; try discriminate Hdec.
      destruct (is_cont (ord b1) && _ && _ && _) eqn:Hc;
        [|discriminate Hdec].
      apply andb_true_iff in Hc as [Hc Hsur].
      apply andb_true_iff in Hc as [Hc Hcp].
      apply andb_true_iff in Hc as [Hc1 Hc2].
      apply N.leb_le in Hcp. apply negb_true_iff in Hsur.
      apply option_map_cons_inv in Hdec as (s' & Hs' & ->).
      apply (utf8_encode_cons _ [b0; b1; b2]).
      - apply (encode_cp_3 (ord b0) (ord b1) (ord b2));
          try assumption; [lia|reflexivity].
      - apply IH; [cbn [List.length] in Hlen; lia|exact Hs']. }
    apply N.ltb_ge in H240.
    destruct (ord b0 <? 248) eqn:H248; [|discriminate Hdec].
    apply N.ltb_lt in H248.
    destruct t0 as [|b1 [|b2 [|b3 t3]]]; try discriminate Hdec.
    destruct (is_cont (ord b1) && _ && _ && _ && _) eqn:Hc;
      [|discriminate Hdec].
    apply andb_true_iff in Hc as [Hc Hhi].
    apply andb_true_iff in Hc as [Hc Hlo].
    apply andb_true_iff in Hc as [Hc Hc3].
    apply andb_true_iff in Hc as [Hc1 Hc2].
    apply N.leb_le in Hlo, Hhi.
    apply option_map_cons_inv in Hdec as (s' & Hs' & ->).
    apply (utf8_encode_cons _ [b0; b1; b2; b3]).
    + apply (encode_cp_4 (ord b0) (ord b1) (ord b2) (ord b3));
        try assumption; [lia|reflexivity].
    + apply IH; [cbn [List.length] in Hlen; lia|exact Hs'].
Qed.

(** Encoding a decoded text gives the bytes back. *)
Lemma utf8_roundtrip (raw : list byte) (s : str) :
  utf8_decode raw = Some s -> utf8_encode s = Some raw.
Proof.
  apply (utf8_roundtrip_bounded (List.length raw)). apply le_n.
Qed.

(** X12.  No record loses the bytes of its file: a record without
    encoding holds a text whose UTF-8 encoding is the file, and a record
    with an encoding has the encoding [base64] and a content that decodes
    to the file. *)
Theorem records_keep_bytes (guess_type : str -> option str)
    (root : option node) (remote_prefix : str) :
  all_readable root = true ->
  exists files,
    mCall_CollectFiles guess_type root remote_prefix = Ok files /\
    Forall2
      (fun f r =>
         match encoding r with
         | None => utf8_encode (content r) = Some (snd f)
         | Some enc =>
             enc = lit "base64" /\ b64decode (content r) = Some (snd f)
         end)
      (regular_files root) files.
Proof.
  intros Hread. eexists. split; [apply collect_all, Hread|].
  apply Forall2_map_r. intros [rel raw] _.
  unfold record_for. cbn [fst snd].
  destruct (is_text_mime (guess_type (name rel))).
  - destruct (utf8_decode raw) as [s|] eqn:Hdec; cbn [encoding content].
    + apply utf8_roundtrip, Hdec.
    + split; [reflexivity|apply b64_roundtrip].
  - cbn [encoding content]. split; [reflexivity|apply b64_roundtrip].
Qed.

(** ** Distinct files, distinct paths *)

Lemma nodupb_NoDup (l : list str) : nodupb l = true -> NoDup l.
Proof.
  induction l as [|x l IH]; intros H; constructor.
  - cbn [nodupb] in H. apply andb_true_iff in H as [Hx _].
    apply negb_true_iff in Hx. intros Hin.
    assert (Hex : existsb (str_eqb x) l = true).
    { apply existsb_exists. exists x. split; [exact Hin|].
      apply str_eqb_refl. }
    rewrite Hex in Hx. discriminate Hx.
  - cbn [nodupb] in H. apply andb_true_iff in H as [_ H]. apply IH, H.
Qed.

Lemma NoDup_map_on {A B} (f : A -> B) (l : list A) :
  (forall x y, In x l -> In y l -> f x = f y -> x = y) ->
  NoDup l -> NoDup (List.map f l).
Proof.
  intros Hinj Hnd. induction Hnd as [|x l Hx Hnd IH]; cbn [List.map];
    constructor.
  - intros Hin. apply in_map_iff in Hin as (y & Hy & Hiny).
    apply Hx. rewrite (Hinj x y); auto using in_eq, in_cons.
  - apply IH. intros a b Ha Hb. apply Hinj; right; assumption.
Qed.

Lemma walked_paths_in (l : list walked) (rel : list str) :
  In rel (walked_paths l) <-> exists m, In (Ok (rel, m)) l.
Proof.
  unfold walked_paths. rewrite in_flat_map. split.
  - intros ([[rel' m]|e] & Hin & Hrel); [|contradiction].
    destruct Hrel as [<-|[]]. eauto.
  - intros (m & Hin). exists (Ok (rel, m)). split; [exact Hin|].
    left. reflexivity.
Qed.

Lemma walked_paths_app (a b : list walked) :
  walked_paths (a ++ b) = walked_paths a ++ walked_paths b.
Proof. apply flat_map_app. Qed.

Lemma walked_paths_below (nm : str) (l : list walked) :
  walked_paths (List.map (below nm) l)
  = List.map (cons nm) (walked_paths l).
Proof.
  induction l as [|[[rel m]|e] l IH]; [reflexivity| |];
    cbn [List.map below walked_paths flat_map app] in *;
    fold (walked_paths l) in *;
    fold (walked_paths (List.map (below nm) l)) in *;
    rewrite IH; reflexivity.
Qed.

(** The relative paths of the walk of a directory. *)
Lemma rglob_dir_paths (entries : list (str * node)) :
  walked_paths (rglob_dir (Dir entries))
  = List.map (fun e => [fst e]) entries
    ++ flat_map
         (fun e => List.map (cons (fst e))
                     (walked_paths (rglob_dir (snd e))))
         entries.
Proof.
  cbn [rglob_dir]. rewrite walked_paths_app. f_equal.
  - induction entries as [|e entries IH]; [reflexivity|].
    cbn [List.map walked_paths flat_map app] in *.
    fold (walked_paths
            (List.map (fun e => Ok ([fst e], snd e)) entries)) in *.
    rewrite IH. reflexivity.
  - induction entries as [|e entries IH]; [reflexivity|].
    cbn [flat_map]. rewrite walked_paths_app, walked_paths_below, IH.
    reflexivity.
Qed.

Lemma rglob_dir_nonempty (n : node) (rel : list str) :
  In rel (walked_paths (rglob_dir n)) -> rel <> [].
Proof.
  intros Hin. apply walked_paths_in in Hin as (m & Hin).
  apply rglob_dir_reach in Hin. inversion Hin; discriminate.
Qed.

Lemma below_paths_nodup (entries : list (str * node)) :
  NoDup (List.map fst entries) ->
  Forall (fun e => NoDup (walked_paths (rglob_dir (snd e)))) entries ->
  NoDup
    (flat_map
       (fun e => List.map (cons (fst e))
                   (walked_paths (rglob_dir (snd e))))
       entries).
Proof.
  induction entries as [|e entries IH]; intros Hnames Hsub;
    [constructor|].
  cbn [List.map] in Hnames. apply NoDup_cons_iff in Hnames as [Hn Hnames].
  inversion Hsub as [|? ? He Hsub']; subst.
  cbn [flat_map]. apply NoDup_app.
  - apply NoDup_map_on; [|exact He].
    intros x y _ _ H. injection H as ->. reflexivity.
  - apply IH; assumption.
  - intros p Hp Hq.
    apply in_map_iff in Hp as (q & <- & _).
    apply in_flat_map in Hq as (e' & He' & Hq).
    apply in_map_iff in Hq as (q' & Hq & _).
    injection Hq as Hname _. apply Hn. rewrite <- Hname.
    apply in_map, He'.
Qed.

(** In a tree without repeated names no relative path is walked twice. *)
Lemma rglob_dir_nodup (n : node) :
  names_distinct n = true -> NoDup (walked_paths (rglob_dir n)).
Proof.
  induction n as [data| |entries IH|e|e] using node_induction; intros H;
    try constructor.
  cbn [names_distinct] in H. apply andb_true_iff in H as [Hnames Hsub].
  apply nodupb_NoDup in Hnames. rewrite forallb_forall in Hsub.
  rewrite rglob_dir_paths. apply NoDup_app.
  - rewrite <- (map_map fst (fun x => [x])).
    apply NoDup_map_on; [|exact Hnames].
    intros x y _ _ Hxy. injection Hxy as ->. reflexivity.
  - apply below_paths_nodup; [exact Hnames|].
    rewrite Forall_forall in *. intros e He. apply IH; auto.
  - intros p Hp Hq.
    apply in_map_iff in Hp as (e & <- & _).
    apply in_flat_map in Hq as (e' & _ & Hq).
    apply in_map_iff in Hq as (q & Hq & Hinq).
    injection Hq as _ ->.
    apply (rglob_dir_nonempty _ _ Hinq). reflexivity.
Qed.

Lemma rglob_nodup (root : option node) :
  root_names_distinct root = true -> NoDup (walked_paths (rglob root)).
Proof.
  destruct root as [n|]; [|constructor]. cbn [root_names_distinct rglob].
  intros H. destruct n as [data| |entries|e|e]; cbn [is_dir];
    try constructor.
  apply rglob_dir_nodup, H.
Qed.

Lemma regular_files_nodup (root : option node) :
  NoDup (walked_paths (rglob root)) ->
  NoDup (List.map fst (regular_files root)).
Proof.
  unfold regular_files.
  induction (rglob root) as [|it todo IH]; intros H; [constructor|].
  cbn [flat_map]. rewrite map_app.
  destruct it as [[rel n]|e]; cbn [walked_paths flat_map app] in H;
    fold (walked_paths todo) in H.
  - apply NoDup_cons_iff in H as [Hrel H].
    destruct n as [[raw|e]| |es|e|e]; cbn [select List.map app];
      try (apply IH, H).
    cbn [fst]. constructor; [|apply IH, H].
    intros Hin. apply Hrel.
    apply in_map_iff in Hin as ([rel' raw'] & Hr & Hin). cbn [fst] in Hr.
    subst rel'. apply in_flat_map in Hin as (it & Hin & Hsel).
    apply select_in in Hsel. subst it.
    apply walked_paths_in. eauto.
  - cbn [select List.map app]. apply IH, H.
Qed.

Lemma split_slash_word (x : str) :
  existsb (N.eqb slash) x = false -> split_slash x = [x].
Proof.
  induction x as [|c x IH]; intros H; [reflexivity|].
  cbn [existsb] in H. apply orb_false_iff in H as [Hc H].
  cbn [split_slash]. rewrite N.eqb_sym, Hc, (IH H). reflexivity.
Qed.

(** Splitting a joined path gives the components back. *)
Lemma split_join_slash (rel : list str) :
  rel <> [] ->
  Forall (fun x => existsb (N.eqb slash) x = false) rel ->
  split_slash (join_slash rel) = rel.
Proof.
  induction rel as [|x rel IH]; intros Hne Hall; [contradiction|].
  inversion Hall as [|? ? Hx Hrest]; subst.
  destruct rel as [|y rel].
  - cbn [join_slash]. apply split_slash_word, Hx.
  - rewrite join_slash_cons by discriminate.
    rewrite (split_slash_component _ _ Hx), IH;
      [reflexivity|discriminate|exact Hrest].
Qed.

Lemma valid_name_no_slash (x : str) :
  valid_name x = true -> existsb (N.eqb slash) x = false.
Proof.
  unfold valid_name. intros H. apply andb_true_iff in H as [H _].
  apply is_component_inv in H as [_ H]. exact H.
Qed.

Lemma valid_names_no_slash (rel : list str) :
  Forall (fun x => valid_name x = true) rel ->
  Forall (fun x => existsb (N.eqb slash) x = false) rel.
Proof.
  intros H. eapply Forall_impl; [|exact H].
  intros x. apply valid_name_no_slash.
Qed.

(** X13.  In a tree whose directories have no repeated name, no two files
    are sent to the same remote path. *)
Theorem distinct_files_distinct_paths (guess_type : str -> option str)
    (root : option node) (remote_prefix : str) :
  root_names_ok root = true ->
  root_names_distinct root = true ->
  all_readable root = true ->
  exists files,
    mCall_CollectFiles guess_type root remote_prefix = Ok files
    /\ NoDup (List.map path files).
Proof.
  intros Hok Hdist Hread. eexists. split; [apply collect_all, Hread|].
  rewrite map_map.
  rewrite (map_ext _ (fun f => remote_path remote_prefix (fst f)))
    by (intros f; apply path_record_for).
  rewrite <- (map_map fst (remote_path remote_prefix)).
  apply NoDup_map_on.
  - intros r1 r2 H1 H2 Heq.
    apply in_map_iff in H1 as ([rel1 raw1] & <- & H1).
    apply in_map_iff in H2 as ([rel2 raw2] & <- & H2).
    cbn [fst] in *.
    destruct (regular_files_names root Hok _ _ H1) as [Hne1 Hv1].
    destruct (regular_files_names root Hok _ _ H2) as [Hne2 Hv2].
    rewrite (remote_path_normal _ _ Hne1 Hv1) in Heq.
    rewrite (remote_path_normal _ _ Hne2 Hv2) in Heq.
    apply app_inv_head in Heq.
    rewrite <- (split_join_slash rel1 Hne1 (valid_names_no_slash _ Hv1)).
    rewrite <- (split_join_slash rel2 Hne2 (valid_names_no_slash _ Hv2)).
    rewrite Heq. reflexivity.
  - apply regular_files_nodup, rglob_nodup, Hdist.
Qed.

(** ** Reading a remote path back *)

Lemma splitroot_rooted (rt : str) (x : N) (t : str) :
  is_root rt = true ->
  (x =? slash) = false ->
  splitroot (rt ++ x :: t) = (rt, x :: t).
Proof.
  intros Hrt Hx. unfold is_root in Hrt.
  apply orb_true_iff in Hrt as [Hrt|Hrt];
    [apply orb_true_iff in Hrt as [Hrt|Hrt]|];
    apply str_eqb_eq in Hrt; subst rt.
  - cbn [app splitroot]. rewrite Hx. reflexivity.
  - cbn [app splitroot]. rewrite N.eqb_refl.
    cbn [lstrip_slash]. rewrite N.eqb_refl, Hx.
    cbn [List.length].
    replace (S (S (List.length t)) - S (List.length t))%nat with 1%nat
      by lia.
    reflexivity.
  - cbn [app splitroot]. rewrite N.eqb_refl.
    cbn [lstrip_slash]. rewrite !N.eqb_refl, Hx.
    cbn [List.length].
    replace (S (S (S (List.length t))) - S (List.length t))%nat
      with 2%nat by lia.
    reflexivity.
Qed.

Lemma join_slash_head (c : str) (rest : list str) :
  is_component c = true ->
  exists x t, join_slash (c :: rest) = x :: t /\ (x =? slash) = false.
Proof.
  intros Hc. apply is_component_head in Hc as (x & t & -> & Hx).
  destruct rest as [|y rest].
  - exists x, t. auto.
  - rewrite join_slash_cons by discriminate. cbn [app]. eauto.
Qed.

Lemma filter_keep_all (comps : list str) :
  forallb is_component comps = true ->
  filter keep_part comps = comps.
Proof.
  induction comps as [|c comps IH]; intros H; [reflexivity|].
  cbn [forallb] in H. apply andb_true_iff in H as [Hc H].
  apply is_component_inv in Hc as [Hk _].
  cbn [filter]. rewrite Hk, (IH H). reflexivity.
Qed.

Lemma components_no_slash (comps : list str) :
  forallb is_component comps = true ->
  Forall (fun x => existsb (N.eqb slash) x = false) comps.
Proof.
  intros H. rewrite forallb_forall in H. apply Forall_forall.
  intros x Hx. apply is_component_inv, H, Hx.
Qed.

(** The text of a path with a root and components parses to that root and
    those components. *)
Lemma parse_path_str (rt : str) (comps : list str) :
  is_root rt = true ->
  comps <> [] ->
  forallb is_component comps = true ->
  parse_path (path_str (mkPath rt comps)) = mkPath rt comps.
Proof.
  intros Hrt Hne Hc.
  destruct comps as [|c rest]; [contradiction|].
  assert (Hc0 : is_component c = true).
  { cbn [forallb] in Hc. apply andb_true_iff in Hc as [Hc0 _]. exact Hc0. }
  destruct (join_slash_head c rest Hc0) as (x & t & Hj & Hx).
  unfold path_str. cbn [root parts].
  assert (Hs : rt ++ join_slash (c :: rest) <> []).
  { rewrite Hj. intros E. apply app_eq_nil in E as [_ E]. discriminate E. }
  destruct (rt ++ join_slash (c :: rest)) as [|y s] eqn:E;
    [contradiction|].
  rewrite <- E, parse_path_fields, Hj, (splitroot_rooted _ _ _ Hrt Hx).
  cbn [fst snd]. rewrite <- Hj.
  rewrite (split_join_slash _ Hne (components_no_slash _ Hc)).
  rewrite (filter_keep_all _ Hc). reflexivity.
Qed.

Lemma valid_names_components (rel : list str) :
  Forall (fun x => valid_name x = true) rel ->
  forallb is_component rel = true.
Proof.
  intros H. apply forallb_forall. rewrite Forall_forall in H.
  intros x Hx. specialize (H x Hx). unfold valid_name in H.
  apply andb_true_iff in H as [H _]. exact H.
Qed.

(** X14.  The structure below the root is kept below the prefix: read
    back as a POSIX path, the path of a record has the root of the
    prefix and, as components, those of the prefix followed by the names
    that lead from the local root to the file. *)
Theorem record_path_parses_back (guess_type : str -> option str)
    (dir : option node) (remote_prefix : str) :
  root_names_ok dir = true ->
  all_readable dir = true ->
  exists files,
    mCall_CollectFiles guess_type dir remote_prefix = Ok files /\
    Forall2
      (fun f r =>
         parse_path (path r)
         = mkPath (root (parse_path remote_prefix))
             (parts (parse_path remote_prefix) ++ fst f))
      (regular_files dir) files.
Proof.
  intros Hok Hread. eexists. split; [apply collect_all, Hread|].
  apply Forall2_map_r. intros [rel raw] Hin.
  rewrite path_record_for. cbn [fst].
  destruct (regular_files_names dir Hok rel raw Hin) as [Hne Hall].
  unfold remote_path, joinpath. cbn [root parts].
  apply parse_path_str.
  - apply parse_path_root.
  - intros E. apply app_eq_nil in E as [_ E]. contradiction.
  - rewrite forallb_app, parse_path_parts, (valid_names_components _ Hall).
    reflexivity.
Qed.

(** ** Size of a base64 content *)

Lemma b64encode_length (raw : list byte) :
  List.length (b64encode raw)
  = (4 * ((List.length raw + 2) / 3))%nat.
Proof.
  induction raw as [|a|a b|a b c rest IH] using list_ind3;
    try reflexivity.
  change (b64encode (a :: b :: c :: rest))
    with (let n := ord a * 65536 + ord b * 256 + ord c in
          b64_char (n / 262144) :: b64_char (n / 4096)
            :: b64_char (n / 64) :: b64_char n :: b64encode rest).
  cbv zeta. cbn [List.length]. rewrite IH.
  replace (S (S (S (List.length rest))) + 2)%nat
    with (1 * 3 + (List.length rest + 2))%nat by lia.
  rewrite Nat.div_add_l by discriminate. lia.
Qed.

(** X16.  The content of a record with an encoding is ASCII text of four
    characters for every three bytes of the file, the last group
    filled up. *)
Theorem binary_content_size (guess_type : str -> option str)
    (root : option node) (remote_prefix : str) :
  all_readable root = true ->
  exists files,
    mCall_CollectFiles guess_type root remote_prefix = Ok files /\
    Forall2
      (fun f r =>
         encoding r <> None ->
         List.length (content r)
         = (4 * ((List.length (snd f) + 2) / 3))%nat
         /\ Forall (fun c => c < 128) (content r))
      (regular_files root) files.
Proof.
  intros Hread. eexists. split; [apply collect_all, Hread|].
  apply Forall2_map_r. intros [rel raw] _.
  unfold record_for. cbn [fst snd].
  destruct (if is_text_mime (guess_type (name rel))
            then utf8_decode raw else None);
    cbn [encoding content]; intros Henc; [contradiction|].
  rewrite length_map. split; [apply b64encode_length|].
  apply Forall_map, b64encode_ascii.
Qed.

(** ** What the workflow pushes *)

Lemma collect_ok_readable (guess_type : str -> option str)
    (root : option node) (remote_prefix : str) (files : list FileRecord) :
  mCall_CollectFiles guess_type root remote_prefix = Ok files ->
  all_readable root = true.
Proof.
  intros H. destruct (all_readable root) eqn:Hr; [reflexivity|].
  destruct (collect_raises guess_type remote_prefix root Hr) as [e He].
  rewrite He in H. discriminate H.
Qed.

(** X15.  The files handed to [push_files] are the regular files of the
    local directory, in walk order, each at the normalised form of
    [my_dir_name] followed by its path relative to that directory. *)
Theorem pushed_files_under_prefix (w : World)
    (my_dir_name dir_name branch_name pr_title pr_body git_token : str)
    (a : args) (o : option raised) :
  root_names_ok (local_fs w dir_name) = true ->
  In (Invoke (lit "push_files") a o)
     (fst (rCall_PushAndPR w my_dir_name dir_name branch_name pr_title
             pr_body git_token)) ->
  exists files,
    lookup (lit "files") a = Some (VFiles files) /\
    Forall2
      (fun f r => path r = normal_prefix my_dir_name ++ join_slash (fst f))
      (regular_files (local_fs w dir_name)) files.
Proof.
  intros Hok Hin.
  destruct (run_invocation w my_dir_name dir_name branch_name pr_title
              pr_body git_token _ _ _ Hin)
    as (files & tr & res & Hc & Hb & _ & Hin').
  exists files. split.
  - destruct (body_invocation _ _ _ _ _ _ _ _ _ Hb Hin')
      as [[Hn _]|[[_ ->]|[Hn _]]];
      [exfalso; vm_compute in Hn; discriminate Hn
      |vm_compute; reflexivity
      |exfalso; vm_compute in Hn; discriminate Hn].
  - pose proof (collect_ok_readable _ _ _ _ Hc) as Hread.
    rewrite (collect_all _ _ _ Hread) in Hc. injection Hc as <-.
    apply Forall2_map_r. intros [rel raw] Hf.
    rewrite path_record_for. cbn [fst].
    destruct (regular_files_names _ Hok rel raw Hf) as [Hne Hall].
    apply remote_path_normal; assumption.
Qed.

(** ** The further properties on the scenario *)

Lemma pr_error_after_push_witness :
  In (Invoke (lit "create_pull_request")
        (create_pull_request_args (lit "Week 1") (lit "Report")
           (lit "feat/alice-week1"))
        (Some (Error "ToolException" (lit "no commits"))))
     (fst (scenario_run
             (scenario_world None None
                (Some (Error "ToolException" (lit "no commits"))))))
  /\ snd (scenario_run
            (scenario_world None None
               (Some (Error "ToolException" (lit "no commits")))))
     = Raise (Error "ToolException" (lit "no commits")).
Proof.
  assert (H : In (Invoke (lit "create_pull_request")
                    (create_pull_request_args (lit "Week 1") (lit "Report")
                       (lit "feat/alice-week1"))
                    (Some (Error "ToolException" (lit "no commits"))))
                (fst (scenario_run
                        (scenario_world None None
                           (Some (Error "ToolException"
                                    (lit "no commits"))))))).
  { vm_compute. do 4 right. left. reflexivity. }
  split; [exact H|].
  exact (proj1 (pr_error_after_push _ _ _ _ _ _ _ _ _ H)).
Defined.

Lemma branch_signal_propagates_witness :
  In (Invoke (lit "create_branch")
        (create_branch_args (lit "feat/alice-week1"))
        (Some (Signal "CancelledError")))
     (fst (scenario_run
             (scenario_world (Some (Signal "CancelledError")) None None)))
  /\ scenario_run
       (scenario_world (Some (Signal "CancelledError")) None None)
     = ([Connect (lit "token") None;
         Invoke (lit "create_branch")
           (create_branch_args (lit "feat/alice-week1"))
           (Some (Signal "CancelledError"));
         Release],
        Raise (Signal "CancelledError")).
Proof.
  assert (H : In (Invoke (lit "create_branch")
                    (create_branch_args (lit "feat/alice-week1"))
                    (Some (Signal "CancelledError")))
                (fst (scenario_run
                        (scenario_world (Some (Signal "CancelledError"))
                           None None)))).
  { vm_compute. right. left. reflexivity. }
  split; [exact H|].
  exact (branch_signal_propagates _ _ _ _ _ _ _ _ _ H).
Defined.

Lemma calls_agree_witness :
  In (Invoke (lit "push_files")
        (push_files_args (lit "feat/alice-week1") scenario_files
           (lit "Week 1"))
        None)
     (fst (scenario_run (scenario_world None None None)))
  /\ (lookup (lit "branch")
        (push_files_args (lit "feat/alice-week1") scenario_files
           (lit "Week 1"))
      = Some (VStr (lit "feat/alice-week1"))
      /\ lookup (lit "message")
           (push_files_args (lit "feat/alice-week1") scenario_files
              (lit "Week 1"))
         = Some (VStr (lit "Week 1"))).
Proof.
  assert (H : In (Invoke (lit "push_files")
                    (push_files_args (lit "feat/alice-week1")
                       scenario_files (lit "Week 1"))
                    None)
                (fst (scenario_run (scenario_world None None None)))).
  { vm_compute. do 3 right. left. reflexivity. }
  split; [exact H|].
  exact (proj1 (proj2 (calls_agree _ _ _ _ _ _ _ _ _ _ H)) eq_refl).
Defined.

Lemma all_steps_succeed_witness :
  (mCall_CollectFiles (mime_db (scenario_world None None None))
     (local_fs (scenario_world None None None) (lit "week1"))
     (lit "alice/")
   = Ok scenario_files
   /\ aenter (service (scenario_world None None None)) (lit "token")
      = None
   /\ getitem (get_tools (service (scenario_world None None None)))
        (lit "create_branch")
      = Some (mkTool (lit "create_branch") (fun _ _ => None))
   /\ getitem (get_tools (service (scenario_world None None None)))
        (lit "push_files")
      = Some (mkTool (lit "push_files") (fun _ _ => None))
   /\ getitem (get_tools (service (scenario_world None None None)))
        (lit "create_pull_request")
      = Some (mkTool (lit "create_pull_request") (fun _ _ => None))
   /\ (forall h msg, stdout (scenario_world None None None) h msg = None))
  /\ snd (scenario_run (scenario_world None None None)) = Ok tt.
Proof.
  split; [repeat split|].
  exact (f_equal snd
           (all_steps_succeed (scenario_world None None None)
              (lit "alice/") (lit "week1") (lit "feat/alice-week1")
              (lit "Week 1") (lit "Report") (lit "token")
              scenario_files
              (mkTool (lit "create_branch") (fun _ _ => None))
              (mkTool (lit "push_files") (fun _ _ => None))
              (mkTool (lit "create_pull_request") (fun _ _ => None))
              eq_refl eq_refl eq_refl eq_refl eq_refl
              (fun _ _ => eq_refl) eq_refl
              (fun _ => eq_refl) (fun _ => eq_refl))).
Defined.

Lemma missing_tool_no_call_witness :
  (mCall_CollectFiles (mime_db world_without_pr)
     (local_fs world_without_pr (lit "week1")) (lit "alice/")
   = Ok scenario_files
   /\ aenter (service world_without_pr) (lit "token") = None
   /\ getitem (get_tools (service world_without_pr))
        (lit "create_pull_request") = None)
  /\ fst (scenario_run world_without_pr)
     = [Connect (lit "token") None; Release].
Proof.
  split; [repeat split|].
  exact (proj1
           (missing_tool_no_call world_without_pr
              (lit "alice/") (lit "week1") (lit "feat/alice-week1")
              (lit "Week 1") (lit "Report") (lit "token")
              scenario_files eq_refl eq_refl
              (or_intror (or_intror eq_refl)))).
Defined.

Lemma missing_directory_pushes_nothing_witness :
  local_fs (scenario_world None None None) (lit "nowhere") = None
  /\ mCall_CollectFiles (mime_db (scenario_world None None None))
       (local_fs (scenario_world None None None) (lit "nowhere"))
       (lit "alice/")
     = Ok [].
Proof.
  split; [reflexivity|].
  exact (proj1
           (missing_directory_pushes_nothing (scenario_world None None None)
              (lit "alice/") (lit "nowhere") (lit "feat/alice-week1")
              (lit "Week 1") (lit "Report") (lit "token")
              (or_introl eq_refl))).
Defined.

Example missing_directory_run :
  rCall_PushAndPR (scenario_world None None None)
    (lit "alice/") (lit "nowhere") (lit "feat/alice-week1")
    (lit "Week 1") (lit "Report") (lit "token")
  = ([Connect (lit "token") None]
     ++ branch_events (lit "feat/alice-week1") None
     ++ [push_event (lit "feat/alice-week1") [] (lit "Week 1") None;
         pr_event (lit "Week 1") (lit "Report") (lit "feat/alice-week1")
           None;
         Print msg_pr_done None;
         Release],
     Ok tt).
Proof. vm_compute. reflexivity. Qed.

Lemma nested_file_collected_witness :
  all_readable (Some nested_root) = true
  /\ exists files,
       mCall_CollectFiles scenario_guess (Some nested_root) (lit "alice/")
       = Ok files
       /\ forall rel raw,
            reach nested_root rel (File (Ok raw)) ->
            exists r,
              In r files /\ path r = remote_path (lit "alice/") rel.
Proof.
  split; [reflexivity|].
  exact (nested_file_collected scenario_guess nested_root (lit "alice/")
           eq_refl).
Defined.

Example nested_reach :
  reach nested_root [lit "docs"; lit "img"; lit "b.png"]
    (File (Ok [xff; xd8; xff])).
Proof.
  eapply reach_below; [left; reflexivity|].
  eapply reach_below; [left; reflexivity|].
  apply reach_entry. left. reflexivity.
Qed.

Example nested_collect :
  mCall_CollectFiles scenario_guess (Some nested_root) (lit "alice/")
  = Ok [mkRecord (lit "alice/docs/a.txt") (lit "hello") None;
        mkRecord (lit "alice/docs/img/b.png") (lit "/9j/")
          (Some (lit "base64"))].
Proof. vm_compute. reflexivity. Qed.

Lemma one_record_per_file_witness :
  all_readable (Some nested_root) = true
  /\ exists files,
       mCall_CollectFiles scenario_guess (Some nested_root) (lit "alice/")
       = Ok files
       /\ List.map path files
          = List.map (remote_path (lit "alice/"))
              (walked_files (rglob (Some nested_root))).
Proof.
  split; [reflexivity|].
  exact (one_record_per_file scenario_guess (Some nested_root)
           (lit "alice/") eq_refl).
Defined.

(** The walk stops at the first step that raises: here [is_file()] on an
    entry of a directory that can be listed but not searched. *)
Example unstatable_entry_raises :
  all_readable (Some scenario_root_unstatable) = false
  /\ rglob (Some scenario_root_unstatable)
     = [Ok ([lit "a.txt"], File (Ok (list_byte_of_string "hello")));
        Ok ([lit "b.png"], File (Ok [xff; xd8; xff]));
        Ok ([lit "noexec"],
            Dir [(lit "inner", Unstatable (Error "PermissionError" []))]);
        Ok ([lit "noexec"; lit "inner"],
            Unstatable (Error "PermissionError" []))]
  /\ mCall_CollectFiles scenario_guess (Some scenario_root_unstatable)
       (lit "alice/")
     = Raise (Error "PermissionError" []).
Proof. repeat split; vm_compute; reflexivity. Qed.

Lemma records_keep_bytes_witness :
  all_readable (Some scenario_root) = true
  /\ exists files,
       mCall_CollectFiles scenario_guess (Some scenario_root)
         (lit "alice/") = Ok files
       /\ Forall2
            (fun f r =>
               match encoding r with
               | None => utf8_encode (content r) = Some (snd f)
               | Some enc =>
                   enc = lit "base64"
                   /\ b64decode (content r) = Some (snd f)
               end)
            (regular_files (Some scenario_root)) files.
Proof.
  split; [reflexivity|].
  exact (records_keep_bytes scenario_guess (Some scenario_root)
           (lit "alice/") eq_refl).
Defined.

Lemma distinct_files_distinct_paths_witness :
  root_names_ok (Some nested_root) = true
  /\ root_names_distinct (Some nested_root) = true
  /\ all_readable (Some nested_root) = true
  /\ exists files,
       mCall_CollectFiles scenario_guess (Some nested_root) (lit "alice/")
       = Ok files
       /\ NoDup (List.map path files).
Proof.
  split; [reflexivity|]. split; [reflexivity|]. split; [reflexivity|].
  exact (distinct_files_distinct_paths scenario_guess (Some nested_root)
           (lit "alice/") eq_refl eq_refl eq_refl).
Defined.

Lemma record_path_parses_back_witness :
  root_names_ok (Some nested_root) = true
  /\ all_readable (Some nested_root) = true
  /\ exists files,
       mCall_CollectFiles scenario_guess (Some nested_root)
         (lit "//srv/./alice") = Ok files
       /\ Forall2
            (fun f r =>
               parse_path (path r)
               = mkPath (root (parse_path (lit "//srv/./alice")))
                   (parts (parse_path (lit "//srv/./alice")) ++ fst f))
            (regular_files (Some nested_root)) files.
Proof.
  split; [reflexivity|]. split; [reflexivity|].
  exact (record_path_parses_back scenario_guess (Some nested_root)
           (lit "//srv/./alice") eq_refl eq_refl).
Defined.

Lemma binary_content_size_witness :
  all_readable (Some scenario_root) = true
  /\ exists files,
       mCall_CollectFiles scenario_guess (Some scenario_root)
         (lit "alice/") = Ok files
       /\ Forall2
            (fun f r =>
               encoding r <> None ->
               List.length (content r)
               = (4 * ((List.length (snd f) + 2) / 3))%nat
               /\ Forall (fun c => c < 128) (content r))
            (regular_files (Some scenario_root)) files.
Proof.
  split; [reflexivity|].
  exact (binary_content_size scenario_guess (Some scenario_root)
           (lit "alice/") eq_refl).
Defined.

Lemma pushed_files_under_prefix_witness :
  root_names_ok (local_fs (scenario_world None None None) (lit "week1"))
  = true
  /\ In (Invoke (lit "push_files")
           (push_files_args (lit "feat/alice-week1") scenario_files
              (lit "Week 1"))
           None)
        (fst (scenario_run (scenario_world None None None)))
  /\ exists files,
       lookup (lit "files")
         (push_files_args (lit "feat/alice-week1") scenario_files
            (lit "Week 1"))
       = Some (VFiles files)
       /\ Forall2
            (fun f r =>
               path r = normal_prefix (lit "alice/") ++ join_slash (fst f))
            (regular_files
               (local_fs (scenario_world None None None) (lit "week1")))
            files.
Proof.
  assert (H : In (Invoke (lit "push_files")
                    (push_files_args (lit "feat/alice-week1")
                       scenario_files (lit "Week 1"))
                    None)
                (fst (scenario_run (scenario_world None None None)))).
  { vm_compute. do 3 right. left. reflexivity. }
  split; [reflexivity|]. split; [exact H|].
  exact (pushed_files_under_prefix (scenario_world None None None)
           (lit "alice/") (lit "week1") (lit "feat/alice-week1")
           (lit "Week 1") (lit "Report") (lit "token") _ _ eq_refl H).
Defined.
